(** * The prediction store of reflux ([src/stores/prediction.js])

    A shallow embedding of the Pinia store [usePredictionStore] and of the
    helper [urlToBase64], with the properties of its specification.

    Scope of the model.
    - JavaScript numbers are binary64 floats ([PrimFloat.float]); strings
      are sequences of characters, and [toLowerCase] acts on the ASCII
      letters (no other character becomes a letter of the image extensions
      it is compared with).
    - Identifiers ([id], [metadata.prediction_id], the [id] of a prediction
      and the API token) are JavaScript primitives; every other payload
      ([input], [output], [status], the placement numbers) is an arbitrary
      JSON-like value.  The registry as local storage may hold it, where an
      entry, its metadata and its [prediction_id] are any JSON values, is
      read by [Raw.cleanupOutputs], which agrees with the action of the
      store on the entries described here.
    - An entry of [outputs] is either [null] or an object; its [metadata] is
      either absent or an object.  Metadata objects live in a heap and are
      held by reference, because [updateOutputPosition] assigns to their
      fields in place and the spread copy [{...output}] of the poller shares
      them.  Output objects are never assigned to in place, so they are
      values.
    - The network ([$fetch], [fetch], [FileReader]) and the two number
      conversions of the runtime ([Number(s)], and the number-to-string
      conversion of a template literal) are parameters, collected in [Env];
      the answer of the network depends on the request only.  Every request
      issued is appended to a log.
    - One action runs to completion before the next one starts; logging to
      the console is left out. *)

From Stdlib Require Import ZArith String Ascii List PrimFloat SpecFloat FloatOps.
From Stdlib Require Import Decimal DecimalString DecimalN.
From stdpp Require Import base option list strings.

Open Scope string_scope.

(* ================================================================= *)
(** ** JavaScript values *)

Inductive Prim : Type :=
| PUndefined
| PNull
| PBool (b : bool)
| PNum (n : float)
| PStr (s : string).

#[local] Set Warnings "-register-all".
Inductive JsVal : Type :=
| JPrim (p : Prim)
| JArr (items : list JsVal)
| JObj (props : list (string * JsVal)).

Coercion JPrim : Prim >-> JsVal.

Definition JStr (s : string) : JsVal := JPrim (PStr s).
Definition JNum (n : float) : JsVal := JPrim (PNum n).
Definition undefined : JsVal := JPrim PUndefined.
Definition null : JsVal := JPrim PNull.

(** ToBoolean. *)
Definition truthy_prim (p : Prim) : bool :=
  match p with
  | PUndefined | PNull => false
  | PBool b => b
  | PNum n => negb (PrimFloat.eqb n 0%float) && negb (PrimFloat.is_nan n)
  | PStr s => negb (String.eqb s "")
  end.

Definition truthy (v : JsVal) : bool :=
  match v with
  | JPrim p => truthy_prim p
  | JArr _ | JObj _ => true
  end.

(** [a === b] on primitives. *)
Definition strict_eq (a b : Prim) : bool :=
  match a, b with
  | PUndefined, PUndefined => true
  | PNull, PNull => true
  | PBool x, PBool y => Bool.eqb x y
  | PNum x, PNum y => PrimFloat.eqb x y
  | PStr x, PStr y => String.eqb x y
  | _, _ => false
  end.

(** SameValueZero, the equality of [Set]: as [===] except that NaN is
    equal to itself. *)
Definition same_value_zero (a b : Prim) : bool :=
  match a, b with
  | PNum x, PNum y => PrimFloat.eqb x y || (PrimFloat.is_nan x && PrimFloat.is_nan y)
  | _, _ => strict_eq a b
  end.

(** [v === 'lit'] for a string literal. *)
Definition is_string (v : JsVal) (lit : string) : bool :=
  match v with
  | JPrim (PStr s) => String.eqb s lit
  | _ => false
  end.

(** [p.length > 0] for a primitive [p] that is not null or undefined: only a
    string has a [length]; for a number or a boolean [p.length] is
    [undefined], and [undefined > 0] is false.  ([Raw.length_gt_0] is the
    same test on any value.) *)
Definition length_gt_0 (p : Prim) : bool :=
  match p with
  | PStr s => Nat.ltb 0 (String.length s)
  | _ => false
  end.

(** [a || b]. *)
Definition or_else (a b : Prim) : Prim := if truthy_prim a then a else b.

(** [Array.isArray]. *)
Definition isArray (v : JsVal) : bool :=
  match v with JArr _ => true | _ => false end.

(** [[...new Set(l)]]: the distinct values of [l], each at its first
    occurrence. *)
Fixpoint Set_values (l : list Prim) : list Prim :=
  match l with
  | [] => []
  | a :: l' => a :: List.filter (fun b => negb (same_value_zero a b)) (Set_values l')
  end.

(* ----------------------------------------------------------------- *)
(** *** Strings *)

(** [s.split(sep)] for a separator of one character. *)
Fixpoint split (sep : ascii) (s : string) : list string :=
  match s with
  | EmptyString => [EmptyString]
  | String c s' =>
      if Ascii.eqb c sep then EmptyString :: split sep s'
      else match split sep s' with
           | piece :: pieces => String c piece :: pieces
           | [] => [String c EmptyString]
           end
  end.

(** The character [c] occurs in [s]. *)
Fixpoint has_char (c : ascii) (s : string) : bool :=
  match s with
  | EmptyString => false
  | String c' s' => Ascii.eqb c' c || has_char c s'
  end.

(** [s.toLowerCase()] on the ASCII letters. *)
Definition lower_ascii (c : ascii) : ascii :=
  let n := nat_of_ascii c in
  if Nat.leb 65 n && Nat.leb n 90 then ascii_of_nat (n + 32) else c.

Fixpoint toLowerCase (s : string) : string :=
  match s with
  | EmptyString => EmptyString
  | String c s' => String (lower_ascii c) (toLowerCase s')
  end.

(** [s.startsWith(p)]. *)
Definition startsWith (s p : string) : bool := String.prefix p s.

(** The integer [n] as a number: the binary64 float nearest to it. *)
Definition Z_to_float (n : Z) : float :=
  SF2Prim (binary_normalize prec emax n 0 false).

(** The decimal numeral of a natural number, as in ["4:3"]. *)
Definition decimal (n : N) : string := NilZero.string_of_uint (N.to_uint n).

Inductive JsError : Type := TypeError | FetchError | ReadError.

(** How an evaluation ends: with a value, or with a thrown error (for a
    promise: resolved, or rejected). *)
Inductive Completion (A : Type) : Type :=
| Normal (a : A)
| Throw (e : JsError).
Arguments Normal {A} a.
Arguments Throw {A} e.

(** The own property [k] of an object. *)
Fixpoint assoc (k : string) (props : list (string * JsVal)) : option JsVal :=
  match props with
  | [] => None
  | (k', v) :: props' => if String.eqb k' k then Some v else assoc k props'
  end.

(** [v.k] for a property [k] that no prototype provides: a [TypeError] on
    [null] and [undefined], the own property of an object, [undefined]
    elsewhere. *)
Definition get_prop (v : JsVal) (k : string) : Completion JsVal :=
  match v with
  | JPrim PUndefined | JPrim PNull => Throw TypeError
  | JObj props => Normal (default undefined (assoc k props))
  | _ => Normal undefined
  end.

(** [v.split(sep)]: only a string has the method. *)
Definition call_split (v : JsVal) (sep : ascii) : Completion (list string) :=
  match v with
  | JPrim (PStr s) => Normal (split sep s)
  | _ => Throw TypeError
  end.

(* ================================================================= *)
(** ** The data model *)

(** A reference to a metadata object: its index in the heap. *)
Definition loc := nat.

(** The object behind [output.metadata]; its [prediction_id] is a
    primitive, as the id of a prediction is (for ids of another kind in a
    stored registry, see [Raw]). *)
Record Metadata : Type := {
  m_prediction_id : Prim;
  m_x : JsVal;
  m_y : JsVal;
  m_rotation : JsVal;
  m_width : JsVal;
  m_height : JsVal
}.

(** An entry of [outputs]; [o_metadata] is the reference to its metadata
    object, [None] when the property is missing or null. *)
Record Output : Type := {
  o_id : Prim;
  o_status : JsVal;
  o_input : JsVal;
  o_output : JsVal;
  o_metadata : option loc
}.

(** A prediction object as the API returns it. *)
Record Prediction : Type := {
  p_id : Prim;
  p_status : JsVal;
  p_input : JsVal;
  p_output : JsVal;
  p_error : JsVal
}.

(** What [$fetch(pollUrl)] resolves to: a falsy value, one prediction
    object, or an array whose items are prediction objects or falsy. *)
Inductive PollResponse : Type :=
| PollNothing
| PollObject (prediction : Prediction)
| PollArray (predictions : list (option Prediction)).

(** What [fetch(url)] followed by [response.blob()] and
    [FileReader.readAsDataURL] gives: the fetch (or the blob) rejects, or
    there is a blob of some [type], whose read either fails
    ([reader.onerror]) or ends with [reader.result]. *)
Inductive Fetched : Type :=
| FetchRejected
| Blob (type : string) (result : option string).

(** The requests of the store: the creation call, the batched poll with
    its ids, and the fetch of an asset. *)
Inductive Request : Type :=
| ReqCreate (token : Prim) (input : JsVal)
| ReqPoll (prediction_ids : list Prim) (token : Prim)
| ReqAsset (url : string).

(** The runtime and the network.
    - [Number_of_string s] is [Number(s)];
    - [String_of_number n] is the string of the number [n] in a template
      literal;
    - [post_prediction token input] is what
      [$fetch('/api/prediction', {method: 'POST', ...})] does: it rejects, or
      resolves to a response, [None] for a null one;
    - [get_predictions ids token] is what [$fetch(pollUrl)] does for the
      URL built from [ids] and [token];
    - [fetch_blob url] is described with [Fetched]. *)
Record Env : Type := {
  Number_of_string : string -> float;
  String_of_number : float -> string;
  post_prediction : Prim -> JsVal -> Completion (option Prediction);
  get_predictions : list Prim -> Prim -> Completion PollResponse;
  fetch_blob : string -> Fetched
}.

(** The state of the store, the heap of metadata objects, and the log of
    the requests issued so far. *)
Record World : Type := {
  replicate_api_token : Prim;
  outputs : list (option Output);
  heap : list Metadata;
  requests : list Request
}.

Definition set_outputs (w : World) (os : list (option Output)) : World :=
  {| replicate_api_token := replicate_api_token w; outputs := os;
     heap := heap w; requests := requests w |}.

Definition set_heap (w : World) (h : list Metadata) : World :=
  {| replicate_api_token := replicate_api_token w; outputs := outputs w;
     heap := h; requests := requests w |}.

Definition add_requests (w : World) (rs : list Request) : World :=
  {| replicate_api_token := replicate_api_token w; outputs := outputs w;
     heap := heap w; requests := requests w ++ rs |}.

(* ----------------------------------------------------------------- *)
(** *** Actions *)

Definition M (A : Type) : Type := World -> Completion A * World.

Definition ret {A} (a : A) : M A := fun w => (Normal a, w).
Definition throw {A} (e : JsError) : M A := fun w => (Throw e, w).

Definition bind {A B} (k : A -> M B) (m : M A) : M B :=
  fun w =>
    match m w with
    | (Normal a, w') => k a w'
    | (Throw e, w') => (Throw e, w')
    end.

#[export] Instance M_ret : MRet M := @ret.
#[export] Instance M_bind : MBind M := @bind.

(** [try { body } catch (e) { handler }]. *)
Definition try_catch {A} (body : M A) (handler : JsError -> M A) : M A :=
  fun w =>
    match body w with
    | (Normal a, w') => (Normal a, w')
    | (Throw e, w') => handler e w'
    end.

Definition of_completion {A} (c : Completion A) : M A := fun w => (c, w).
Definition get_world : M World := fun w => (Normal w, w).
Definition modify (f : World -> World) : M unit := fun w => (Normal tt, f w).

(** [for (const a of l) body]. *)
Fixpoint for_of {A} (l : list A) (body : A -> M unit) : M unit :=
  match l with
  | [] => ret tt
  | a :: l' => body a;; for_of l' body
  end.

(** A computation that only talks to the network: its requests are
    logged, then it completes. *)
Definition await {A} (r : list Request * Completion A) : M A :=
  fun w => (snd r, add_requests w (fst r)).

(* ================================================================= *)
(** ** The program *)

(** [`${p}`] in a template literal. *)
Definition to_string (env : Env) (p : Prim) : string :=
  match p with
  | PUndefined => "undefined"
  | PNull => "null"
  | PBool true => "true"
  | PBool false => "false"
  | PNum n => String_of_number env n
  | PStr s => s
  end.

(** [output?.metadata]: the metadata object of an entry, if the entry is
    not null and has one.  (A reference outside the heap, which no action
    produces, reads as no object.) *)
Definition metadata_of (h : list Metadata) (output : option Output) : option Metadata :=
  o ← output; l ← o_metadata o; h !! l.
Arguments metadata_of : simpl never.

(** [output?.metadata?.prediction_id]. *)
Definition prediction_id_of (h : list Metadata) (output : option Output) : Prim :=
  match metadata_of h output with
  | Some m => m_prediction_id m
  | None => PUndefined
  end.

(** [outputs.findIndex(o => o.id === id)]: [None] stands for [-1]; reading
    [o.id] on a null entry throws. *)
Fixpoint findIndex_id (id : Prim) (os : list (option Output)) : Completion (option nat) :=
  match os with
  | [] => Normal None
  | None :: _ => Throw TypeError
  | Some o :: os' =>
      if strict_eq (o_id o) id then Normal (Some 0)
      else match findIndex_id id os' with
           | Normal (Some i) => Normal (Some (S i))
           | r => r
           end
  end.

(** [o.output = v], on a fresh copy. *)
Definition with_output (o : Output) (v : JsVal) : Output :=
  {| o_id := o_id o; o_status := o_status o; o_input := o_input o;
     o_output := v; o_metadata := o_metadata o |}.

(** The argument of [updateOutputPosition]; an omitted [width] or
    [height] is [undefined]. *)
Record Position : Type := {
  pos_id : Prim;
  pos_x : JsVal;
  pos_y : JsVal;
  pos_rotation : JsVal;
  pos_width : JsVal;
  pos_height : JsVal
}.

(** [v === undefined]. *)
Definition is_undefined (v : JsVal) : bool :=
  match v with JPrim PUndefined => true | _ => false end.

Definition image_extensions : list string := ["jpg"; "jpeg"; "png"; "gif"; "webp"].

Section Store.
Context (env : Env).

(* ----------------------------------------------------------------- *)
(** *** [urlToBase64] *)

(** [convertSingle(url)]: the requests it issues and how it completes.
    A rejected [fetch] or [blob] is caught and gives back [url]; the promise
    of the reader is returned, not awaited, so its rejection is the
    rejection of [convertSingle]. *)
Definition convertSingle (url : JsVal) : list Request * Completion JsVal :=
  match url with
  | JPrim (PStr s) =>
      if negb (startsWith s "https") then ([], Normal url)
      else
        let urlParts := split "/" s in
        let fileName := List.last urlParts "" in
        let fileExtension := toLowerCase (List.last (split "." fileName) "") in
        ([ReqAsset s],
         match fetch_blob env s with
         | FetchRejected => Normal url
         | Blob blob_type result =>
             let fileType :=
               if existsb (String.eqb fileExtension) image_extensions
               then "image/" ++ (if String.eqb fileExtension "jpg" then "jpeg" else fileExtension)
               else if negb (String.eqb blob_type "") then blob_type
                    else "application/octet-stream" in
             match result with
             | None => Throw ReadError
             | Some base64data =>
                 Normal (JStr ("data:" ++ fileType ++ ";base64,"
                                 ++ nth 1 (split "," base64data) "undefined"))
             end
         end)
  | _ => ([], Normal url)
  end.

(** [Promise.all]: the values in order, or the rejection of an item. *)
Fixpoint Promise_all (cs : list (Completion JsVal)) : Completion (list JsVal) :=
  match cs with
  | [] => Normal []
  | Throw e :: _ => Throw e
  | Normal v :: cs' =>
      match Promise_all cs' with
      | Normal vs => Normal (v :: vs)
      | Throw e => Throw e
      end
  end.

(** [urlToBase64(urlOrArray)]: [map] starts the conversion of every item,
    so every fetch is issued, whatever becomes of the others. *)
Definition urlToBase64 (urlOrArray : JsVal) : list Request * Completion JsVal :=
  match urlOrArray with
  | JArr items =>
      let promises := map convertSingle items in
      (concat (map fst promises),
       match Promise_all (map snd promises) with
       | Normal vs => Normal (JArr vs)
       | Throw e => Throw e
       end)
  | _ => convertSingle urlOrArray
  end.

(* ----------------------------------------------------------------- *)
(** *** Actions of the store *)

(** [resetStore()]. *)
Definition resetStore : M unit := modify (fun w => set_outputs w []).

(** The test of [cleanupOutputs]:
    [output && output.metadata && output.metadata.prediction_id &&
     output.metadata.prediction_id.length > 0]. *)
Definition has_prediction_id (h : list Metadata) (output : option Output) : bool :=
  match metadata_of h output with
  | Some m => truthy_prim (m_prediction_id m) && length_gt_0 (m_prediction_id m)
  | None => false
  end.

(** [cleanupOutputs()]. *)
Definition cleanupOutputs : M unit :=
  modify (fun w => set_outputs w (List.filter (has_prediction_id (heap w)) (outputs w))).

(** The getter [incompletePredictions]. *)
Definition is_incomplete (h : list Metadata) (output : option Output) : bool :=
  match output, metadata_of h output with
  | Some o, Some m =>
      truthy_prim (m_prediction_id m)
      && negb (is_string (o_status o) "succeeded")
      && negb (is_string (o_status o) "failed")
  | _, _ => false
  end.

Definition incompletePredictions (w : World) : list (option Output) :=
  List.filter (is_incomplete (heap w)) (outputs w).

(** [createPrediction({input})].  Reading [prediction.error] on a null
    response throws; a missing item of the destructured
    [[width, height]] is [undefined], which the division turns into NaN;
    the metadata object of the new Output is allocated at the end of the
    heap.  The action returns the prediction, or nothing. *)
Definition createPrediction (input : JsVal) : M (option Prediction) :=
  try_catch
    (w ← get_world;
     prediction ← await ([ReqCreate (replicate_api_token w) input],
                         post_prediction env (replicate_api_token w) input);
     match prediction with
     | None => throw TypeError
     | Some prediction =>
         if truthy (p_error prediction) then ret None
         else
           let baseSize := 300%float in
           aspect_ratio ← of_completion (get_prop input "aspect_ratio");
           parts ← of_completion (call_split aspect_ratio ":");
           let numbers := map (Number_of_string env) parts in
           let width := nth 0 numbers nan in
           let height := nth 1 numbers nan in
           let scaledWidth := baseSize in
           let scaledHeight := ((height / width) * baseSize)%float in
           modify (fun w =>
             let metadata :=
               {| m_prediction_id := p_id prediction;
                  m_x := JNum 0; m_y := JNum 0; m_rotation := JNum 0;
                  m_width := JNum scaledWidth; m_height := JNum scaledHeight |} in
             let newOutput :=
               {| o_id := PStr ("output-" ++ to_string env (p_id prediction));
                  o_status := p_status prediction;
                  o_input := p_input prediction;
                  o_output := null;
                  o_metadata := Some (length (heap w)) |} in
             {| replicate_api_token := replicate_api_token w;
                outputs := outputs w ++ [Some newOutput];
                heap := heap w ++ [metadata];
                requests := requests w |});;
           ret (Some prediction)
     end)
    (fun e => ret None).

(** The body of the inner loop of [pollIncompletePredictions]:
    [updatedOutput] is the spread copy of [output], which keeps the
    reference to its metadata object. *)
Definition update_output (prediction : Prediction) (output : Output) : M unit :=
  w ← get_world;
  outputIndex ← of_completion (findIndex_id (o_id output) (outputs w));
  match outputIndex with
  | None => ret tt
  | Some outputIndex =>
      let updatedOutput :=
        {| o_id := o_id output;
           o_status := p_status prediction;
           o_input := p_input prediction;
           o_output := o_output output;
           o_metadata := o_metadata output |} in
      updatedOutput ←
        (if truthy (p_output prediction)
         then try_catch
                (converted ← await (urlToBase64 (p_output prediction));
                 ret (with_output updatedOutput converted))
                (fun err => ret updatedOutput)
         else ret updatedOutput);
      modify (fun w => set_outputs w (<[outputIndex := Some updatedOutput]> (outputs w)))
  end.

(** The body of the outer loop: [None] is a falsy item of the response.
    An entry of [outputsToUpdate] is never null, since its
    [prediction_id] equals an id that is truthy. *)
Definition reconcile (prediction : option Prediction) : M unit :=
  match prediction with
  | None => ret tt
  | Some prediction =>
      if negb (truthy_prim (p_id prediction)) then ret tt
      else
        w ← get_world;
        let outputsToUpdate :=
          List.filter
            (fun output => strict_eq (prediction_id_of (heap w) output) (p_id prediction))
            (outputs w) in
        for_of outputsToUpdate
          (fun output =>
             match output with
             | Some output => update_output prediction output
             | None => throw TypeError
             end)
  end.

(** [!pollResponse || pollResponse.error]. *)
Definition poll_failed (pollResponse : PollResponse) : bool :=
  match pollResponse with
  | PollNothing => true
  | PollObject prediction => truthy (p_error prediction)
  | PollArray _ => false
  end.

(** [Array.isArray(pollResponse) ? pollResponse : [pollResponse]]. *)
Definition predictionsToProcess (pollResponse : PollResponse) : list (option Prediction) :=
  match pollResponse with
  | PollArray predictions => predictions
  | PollObject prediction => [Some prediction]
  | PollNothing => [None]
  end.

(** The ids of the poll request, computed on the state [w]. *)
Definition prediction_ids (w : World) : list Prim :=
  Set_values
    (List.filter (fun id => truthy_prim id && length_gt_0 id)
       (map (fun output => or_else (prediction_id_of (heap w) output) PNull)
          (incompletePredictions w))).

(** [pollIncompletePredictions()]. *)
Definition pollIncompletePredictions : M unit :=
  try_catch
    (cleanupOutputs;;
     w ← get_world;
     let prediction_ids := prediction_ids w in
     if Nat.eqb (length prediction_ids) 0 then ret tt
     else
       pollResponse ← await ([ReqPoll prediction_ids (replicate_api_token w)],
                             get_predictions env prediction_ids (replicate_api_token w));
       if poll_failed pollResponse then ret tt
       else for_of (predictionsToProcess pollResponse) reconcile)
    (fun e => ret tt).

(** [this.outputs[index].metadata.field = value], as the update [f] of the
    metadata object; a [TypeError] when there is no such object. *)
Definition assign_metadata (index : nat) (f : Metadata -> Metadata) : M unit :=
  w ← get_world;
  match outputs w !! index with
  | Some (Some o) =>
      match o_metadata o with
      | Some l =>
          match heap w !! l with
          | Some m => modify (fun w => set_heap w (<[l := f m]> (heap w)))
          | None => throw TypeError
          end
      | None => throw TypeError
      end
  | _ => throw TypeError
  end.

Definition set_x (v : JsVal) (m : Metadata) : Metadata :=
  {| m_prediction_id := m_prediction_id m; m_x := v; m_y := m_y m;
     m_rotation := m_rotation m; m_width := m_width m; m_height := m_height m |}.
Definition set_y (v : JsVal) (m : Metadata) : Metadata :=
  {| m_prediction_id := m_prediction_id m; m_x := m_x m; m_y := v;
     m_rotation := m_rotation m; m_width := m_width m; m_height := m_height m |}.
Definition set_rotation (v : JsVal) (m : Metadata) : Metadata :=
  {| m_prediction_id := m_prediction_id m; m_x := m_x m; m_y := m_y m;
     m_rotation := v; m_width := m_width m; m_height := m_height m |}.
Definition set_width (v : JsVal) (m : Metadata) : Metadata :=
  {| m_prediction_id := m_prediction_id m; m_x := m_x m; m_y := m_y m;
     m_rotation := m_rotation m; m_width := v; m_height := m_height m |}.
Definition set_height (v : JsVal) (m : Metadata) : Metadata :=
  {| m_prediction_id := m_prediction_id m; m_x := m_x m; m_y := m_y m;
     m_rotation := m_rotation m; m_width := m_width m; m_height := v |}.

(** [updateOutputPosition({id, x, y, rotation, width, height})]. *)
Definition updateOutputPosition (p : Position) : M unit :=
  w ← get_world;
  index ← of_completion (findIndex_id (pos_id p) (outputs w));
  match index with
  | None => ret tt
  | Some index =>
      assign_metadata index (set_x (pos_x p));;
      assign_metadata index (set_y (pos_y p));;
      assign_metadata index (set_rotation (pos_rotation p));;
      (if negb (is_undefined (pos_width p))
       then assign_metadata index (set_width (pos_width p)) else ret tt);;
      (if negb (is_undefined (pos_height p))
       then assign_metadata index (set_height (pos_height p)) else ret tt)
  end.

End Store.


(* ================================================================= *)
(** ** Vocabulary of the properties *)

(* ----------------------------------------------------------------- *)
(** *** [urlToBase64] *)

(** The test of [convertSingle]: a string that starts with ["https"]. *)
Definition is_remote (v : JsVal) : bool :=
  match v with
  | JPrim (PStr s) => startsWith s "https"
  | _ => false
  end.

(** A remote string, or an array with a remote string among its items. *)
Definition has_remote (v : JsVal) : bool :=
  match v with
  | JArr items => existsb is_remote items
  | _ => is_remote v
  end.

(** The conversion of [v] gets a blob whose read fails: the one failure
    that [convertSingle] does not catch. *)
Definition read_fails (env : Env) (v : JsVal) : bool :=
  match v with
  | JPrim (PStr s) =>
      startsWith s "https"
      && match fetch_blob env s with Blob _ None => true | _ => false end
  | _ => false
  end.

(** The fetch of [v] (or its blob) rejects. *)
Definition fetch_rejects (env : Env) (v : JsVal) : bool :=
  match v with
  | JPrim (PStr s) =>
      startsWith s "https"
      && match fetch_blob env s with FetchRejected => true | _ => false end
  | _ => false
  end.

(** No read fails in the conversion of [v], item by item for an array. *)
Definition no_read_failure (env : Env) (v : JsVal) : bool :=
  match v with
  | JArr items => forallb (fun item => negb (read_fails env item)) items
  | _ => negb (read_fails env v)
  end.

(* ----------------------------------------------------------------- *)
(** *** [createPrediction] *)

(** The creation call fails: [$fetch] rejects, or resolves to a response
    whose [error] is set. *)
Definition creation_fails (env : Env) (w : World) (input : JsVal) : Prop :=
  match post_prediction env (replicate_api_token w) input with
  | Throw _ => True
  | Normal None => False
  | Normal (Some prediction) => truthy (p_error prediction) = true
  end.

(* ----------------------------------------------------------------- *)
(** *** [pollIncompletePredictions] *)

Definition is_asset_request (r : Request) : Prop :=
  match r with ReqAsset _ => True | _ => False end.

(** [p] is the non-empty [prediction_id] of an Output of [w] whose status
    is neither ['succeeded'] nor ['failed']. *)
Definition pollable (w : World) (p : Prim) : Prop :=
  exists o m s,
    In (Some o) (outputs w) /\
    metadata_of (heap w) (Some o) = Some m /\
    m_prediction_id m = PStr s /\ s <> "" /\ p = PStr s /\
    is_string (o_status o) "succeeded" = false /\
    is_string (o_status o) "failed" = false.

(** The batched poll call fails: [$fetch] rejects, or resolves to nothing,
    or to a response whose [error] is set. *)
Definition poll_call_fails (env : Env) (w : World) : Prop :=
  match get_predictions env (prediction_ids (snd (cleanupOutputs w)))
          (replicate_api_token w) with
  | Throw _ => True
  | Normal pollResponse => poll_failed pollResponse = true
  end.

(** What the reconciliation leaves alone: the token, the metadata objects,
    the length of [outputs]; and it only adds asset requests. *)
Definition extends (w w' : World) : Prop :=
  replicate_api_token w' = replicate_api_token w /\
  heap w' = heap w /\
  length (outputs w') = length (outputs w) /\
  exists assets, Forall is_asset_request assets /\ requests w' = (requests w ++ assets)%list.

(** Every entry is the first one that [findIndex] finds under its own
    [id]: the ids of the registry are pairwise distinct. *)
Definition ids_distinct (os : list (option Output)) : Prop :=
  forall i o, os !! i = Some (Some o) -> findIndex_id (o_id o) os = Normal (Some i).

(** The copy of [o] that the poller writes back for [prediction]. *)
Definition updated (env : Env) (prediction : Prediction) (o : Output) : Output :=
  {| o_id := o_id o;
     o_status := p_status prediction;
     o_input := p_input prediction;
     o_output :=
       if truthy (p_output prediction)
       then match snd (urlToBase64 env (p_output prediction)) with
            | Normal converted => converted
            | Throw _ => o_output o
            end
       else o_output o;
     o_metadata := o_metadata o |}.

(** [prediction] is processed and [entry] is among its [outputsToUpdate]. *)
Definition applies (h : list Metadata) (prediction : Prediction) (entry : option Output) : bool :=
  truthy_prim (p_id prediction) && strict_eq (prediction_id_of h entry) (p_id prediction).

(** One turn of the outer loop, seen from one entry. *)
Definition apply_prediction (env : Env) (h : list Metadata)
    (entry : option Output) (prediction : option Prediction) : option Output :=
  match prediction, entry with
  | Some prediction, Some o =>
      if applies h prediction entry then Some (updated env prediction o) else entry
  | _, _ => entry
  end.

(** [prediction] is the one item of the response about its id. *)
Definition sole_report (prediction : Prediction) (predictions : list (option Prediction)) : Prop :=
  exists before after,
    predictions = (before ++ Some prediction :: after)%list /\
    Forall (fun other =>
              match other with
              | Some other => strict_eq (p_id prediction) (p_id other) = false
              | None => True
              end) (before ++ after)%list.

(** The poll is issued and answered, and the answer reports [prediction]. *)
Definition poll_reports (env : Env) (w : World) (prediction : Prediction) : Prop :=
  prediction_ids (snd (cleanupOutputs w)) <> [] /\
  exists pollResponse,
    get_predictions env (prediction_ids (snd (cleanupOutputs w))) (replicate_api_token w)
      = Normal pollResponse /\
    poll_failed pollResponse = false /\
    sole_report prediction (predictionsToProcess pollResponse).

(* ----------------------------------------------------------------- *)
(** *** [updateOutputPosition] *)

(** The metadata object that [updateOutputPosition] assigns to, if any. *)
Definition target (p : Position) (w : World) : option loc :=
  match findIndex_id (pos_id p) (outputs w) with
  | Normal (Some index) =>
      match outputs w !! index with
      | Some (Some o) => o_metadata o
      | _ => None
      end
  | _ => None
  end.

(** The assignments of [updateOutputPosition], on one metadata object. *)
Definition place (p : Position) (m : Metadata) : Metadata :=
  {| m_prediction_id := m_prediction_id m;
     m_x := pos_x p;
     m_y := pos_y p;
     m_rotation := pos_rotation p;
     m_width := if is_undefined (pos_width p) then m_width m else pos_width p;
     m_height := if is_undefined (pos_height p) then m_height m else pos_height p |}.

(* ================================================================= *)
(** ** Example environments and states *)

(** [Number(s)] on decimal numerals (NaN elsewhere, which is not what
    JavaScript gives for every other string: an instance for the
    examples only). *)
Definition parse_number (s : string) : float :=
  match NilZero.uint_of_string s with
  | Some u => Z_to_float (Z.of_N (N.of_uint u))
  | None => nan
  end.

(** An environment that answers every creation call with [created], every
    poll with [polled] and every asset fetch with [blob]. *)
Definition example_env (created : Completion (option Prediction))
    (polled : Completion PollResponse) (blob : Fetched) : Env :=
  {| Number_of_string := parse_number;
     String_of_number := fun _ => "NaN";
     post_prediction := fun _ _ => created;
     get_predictions := fun _ _ => polled;
     fetch_blob := fun _ => blob |}.

Definition example_input : JsVal := JObj [("aspect_ratio", JStr "4:3")].

Definition job1 (status : string) (output error : JsVal) : Prediction :=
  {| p_id := PStr "job1"; p_status := JStr status; p_input := example_input;
     p_output := output; p_error := error |}.

Definition png_blob : Fetched := Blob "image/png" (Some "data:image/png;base64,QUJD").

(** Creation calls are answered with ["job1"], starting; polls with
    ["job1"], succeeded, with a remote result. *)
Definition succeeded_env (blob : Fetched) : Env :=
  example_env (Normal (Some (job1 "starting" null null)))
    (Normal (PollObject (job1 "succeeded" (JStr "https://h/a.png") null))) blob.

Definition empty_world : World :=
  {| replicate_api_token := PStr "r8_token"; outputs := []; heap := []; requests := [] |}.

(** A registry as it may be read back from storage: an entry without
    metadata, then an Output of ["job1"] that is still starting. *)
Definition stale_world : World :=
  {| replicate_api_token := PStr "r8_token";
     outputs :=
       [Some {| o_id := PStr "output-lost"; o_status := JStr "starting";
                o_input := example_input; o_output := null; o_metadata := None |};
        Some {| o_id := PStr "output-job1"; o_status := JStr "starting";
                o_input := example_input; o_output := null; o_metadata := Some 0 |}];
     heap :=
       [{| m_prediction_id := PStr "job1"; m_x := JNum 0; m_y := JNum 0;
           m_rotation := JNum 0; m_width := JNum 300; m_height := JNum 225 |}];
     requests := [] |}.

(** A registry with one Output of ["job1"], in progress, that already
    holds a result. *)
Definition tracked_world : World :=
  {| replicate_api_token := PStr "r8_token";
     outputs :=
       [Some {| o_id := PStr "output-job1"; o_status := JStr "processing";
                o_input := example_input;
                o_output := JStr "data:image/png;base64,T0xE";
                o_metadata := Some 0 |}];
     heap :=
       [{| m_prediction_id := PStr "job1"; m_x := JNum 0; m_y := JNum 0;
           m_rotation := JNum 0; m_width := JNum 300; m_height := JNum 225 |}];
     requests := [] |}.

(** Two Outputs with distinct ids that follow the same prediction. *)
Definition twin_world : World :=
  {| replicate_api_token := PStr "r8_token";
     outputs :=
       [Some {| o_id := PStr "output-a"; o_status := JStr "starting";
                o_input := example_input; o_output := null; o_metadata := Some 0 |};
        Some {| o_id := PStr "output-b"; o_status := JStr "processing";
                o_input := example_input; o_output := null; o_metadata := Some 1 |}];
     heap :=
       [{| m_prediction_id := PStr "job1"; m_x := JNum 0; m_y := JNum 0;
           m_rotation := JNum 0; m_width := JNum 300; m_height := JNum 225 |};
        {| m_prediction_id := PStr "job1"; m_x := JNum 320; m_y := JNum 0;
           m_rotation := JNum 0; m_width := JNum 300; m_height := JNum 225 |}];
     requests := [] |}.

(** The registry after two creation calls that were both answered with
    the id ["job1"]. *)
Definition duplicate_world : World :=
  snd (createPrediction (succeeded_env png_blob) example_input
         (snd (createPrediction (succeeded_env png_blob) example_input empty_world))).

(** The registry after polling [duplicate_world]. *)
Definition aliased_world : World :=
  snd (pollIncompletePredictions (succeeded_env png_blob) duplicate_world).

(** A move of the Output ["output-job1"], without a new size. *)
Definition moved : Position :=
  {| pos_id := PStr "output-job1"; pos_x := JNum 10; pos_y := JNum 20;
     pos_rotation := JNum 0; pos_width := undefined; pos_height := undefined |}.

(** Unfolds the plumbing of actions. *)
Ltac run :=
  repeat (unfold mbind, M_bind, bind, mret, M_ret, ret, throw, try_catch,
          of_completion, get_world, modify, await; cbn).


(* ================================================================= *)
(** ** The rest of the store *)

(** The argument of [removeOutput]: one id, or an array of ids. *)
Inductive IdOrIds : Type :=
| OneId (id : Prim)
| ManyIds (ids : list Prim).

(** [ids.includes(x)], which compares with SameValueZero. *)
Definition includes (ids : list Prim) (x : Prim) : bool :=
  existsb (fun id => same_value_zero id x) ids.

(** [outputs.filter(output => keep(output.id))]: reading [output.id] on a
    null entry throws, and then nothing is returned. *)
Fixpoint filter_by_id (keep : Prim -> bool) (os : list (option Output))
    : Completion (list (option Output)) :=
  match os with
  | [] => Normal []
  | None :: _ => Throw TypeError
  | Some o :: os' =>
      match filter_by_id keep os' with
      | Normal kept => Normal (if keep (o_id o) then Some o :: kept else kept)
      | Throw e => Throw e
      end
  end.

(** [removeOutput(id)]. *)
Definition removeOutput (id : IdOrIds) : M unit :=
  w ← get_world;
  kept ← of_completion
           (match id with
            | ManyIds ids =>
                filter_by_id (fun output_id => negb (includes ids output_id)) (outputs w)
            | OneId id =>
                filter_by_id (fun output_id => negb (strict_eq output_id id)) (outputs w)
            end);
  modify (fun w => set_outputs w kept).

(** The entries that [removeOutput(id)] keeps. *)
Definition other_id (id : Prim) (entry : option Output) : bool :=
  match entry with
  | Some o => negb (strict_eq (o_id o) id)
  | None => false
  end.

(** The entries that [removeOutput(ids)] keeps, for an array [ids]. *)
Definition keep_many (ids : list Prim) (entry : option Output) : bool :=
  match entry with
  | Some o => negb (includes ids (o_id o))
  | None => false
  end.

(** The metadata object and the Output that [createPrediction] makes of a
    response, for an input whose [aspect_ratio] is the string [a], in the
    state [w]. *)
Definition created_metadata (env : Env) (prediction : Prediction) (a : string) : Metadata :=
  let numbers := map (Number_of_string env) (split ":" a) in
  {| m_prediction_id := p_id prediction;
     m_x := JNum 0; m_y := JNum 0; m_rotation := JNum 0;
     m_width := JNum 300;
     m_height := JNum ((nth 1 numbers nan / nth 0 numbers nan) * 300) |}.

Definition created_output (env : Env) (w : World) (prediction : Prediction) : Output :=
  {| o_id := PStr ("output-" ++ to_string env (p_id prediction));
     o_status := p_status prediction;
     o_input := p_input prediction;
     o_output := null;
     o_metadata := Some (length (heap w)) |}.

(** The input has no [aspect_ratio] that is a string: reading it throws,
    or gives a value without the method [split]. *)
Definition no_aspect_ratio (input : JsVal) : Prop :=
  match get_prop input "aspect_ratio" with
  | Normal (JPrim (PStr _)) => False
  | _ => True
  end.

(* ----------------------------------------------------------------- *)
(** *** [pollIncompletePredictions], further *)

(** No item of [predictions] is about [entry]: each is falsy, or has a
    falsy id, or an id other than the [prediction_id] of [entry]. *)
Definition unreported (h : list Metadata) (predictions : list (option Prediction))
    (entry : option Output) : Prop :=
  Forall (fun prediction =>
            match prediction with
            | Some prediction => applies h prediction entry = false
            | None => True
            end) predictions.

(** What the poll call of [pollIncompletePredictions] on [w] is answered,
    as the list of items to process: nothing when no call is made, or the
    call fails. *)
Definition reported (env : Env) (w : World) : list (option Prediction) :=
  let ids := prediction_ids (snd (cleanupOutputs w)) in
  if Nat.eqb (length ids) 0 then []
  else match get_predictions env ids (replicate_api_token w) with
       | Throw _ => []
       | Normal pollResponse =>
           if poll_failed pollResponse then [] else predictionsToProcess pollResponse
       end.

(** The status of a prediction that is over. *)
Definition terminal (status : JsVal) : bool :=
  is_string status "succeeded" || is_string status "failed".

(** Polls are answered with a falsy item, an item without an id and a
    prediction ["job2"] that has succeeded. *)
Definition unrelated_env : Env :=
  example_env (Normal None)
    (Normal (PollArray
       [None;
        Some {| p_id := PUndefined; p_status := JStr "succeeded"; p_input := example_input;
                p_output := JStr "https://h/x.png"; p_error := null |};
        Some {| p_id := PStr "job2"; p_status := JStr "succeeded"; p_input := example_input;
                p_output := JStr "https://h/b.png"; p_error := null |}]))
    png_blob.

(** Creation calls are answered without an id. *)
Definition idless_env : Env :=
  example_env
    (Normal (Some {| p_id := PUndefined; p_status := JStr "starting";
                     p_input := example_input; p_output := null; p_error := null |}))
    (Normal PollNothing) png_blob.

(* ----------------------------------------------------------------- *)
(** *** [urlToBase64], further *)

(** No fetch rejects in the conversion of [v], item by item for an
    array. *)
Definition no_fetch_rejected (env : Env) (v : JsVal) : bool :=
  match v with
  | JArr items => forallb (fun item => negb (fetch_rejects env item)) items
  | _ => negb (fetch_rejects env v)
  end.

(** The media type of a data URI, by the extension of the file (in lower
    case) and the type of the fetched blob. *)
Definition media_type (extension blob_type : string) : string :=
  if String.eqb extension "jpg" || String.eqb extension "jpeg" then "image/jpeg"
  else if String.eqb extension "png" then "image/png"
  else if String.eqb extension "gif" then "image/gif"
  else if String.eqb extension "webp" then "image/webp"
  else if String.eqb blob_type "" then "application/octet-stream"
  else blob_type.

(* ================================================================= *)
(** ** The registry as storage holds it *)

(** [outputs] is read back from local storage, so it is an array of any
    JSON values: an entry need not be an Output, its [metadata] need not be
    an object, and its [prediction_id] can be an array or an object as well
    as a primitive.  [Raw] reads [cleanupOutputs] on such a registry. *)
Module Raw.

(** [v.k] where it is read on a truthy value, for a key [k] that no
    prototype provides. *)
Definition prop (v : JsVal) (k : string) : JsVal :=
  match get_prop v k with
  | Normal x => x
  | Throw _ => undefined
  end.

(** [String(v)]; an array joins its items with commas, null and undefined
    items as the empty string. *)
Fixpoint String_of (env : Env) (v : JsVal) : string :=
  match v with
  | JPrim p => to_string env p
  | JArr items =>
      (fix join (items : list JsVal) : string :=
         match items with
         | [] => ""
         | item :: items' =>
             let s := match item with
                      | JPrim PUndefined | JPrim PNull => ""
                      | _ => String_of env item
                      end in
             match items' with
             | [] => s
             | _ :: _ => s ++ "," ++ join items'
             end
         end) items
  | JObj _ => "[object Object]"
  end.

(** ToNumber: an array or an object is converted through its string. *)
Definition Number_of (env : Env) (v : JsVal) : float :=
  match v with
  | JPrim PUndefined => nan
  | JPrim PNull => 0%float
  | JPrim (PBool b) => if b then 1%float else 0%float
  | JPrim (PNum n) => n
  | JPrim (PStr s) => Number_of_string env s
  | JArr _ | JObj _ => Number_of_string env (String_of env v)
  end.

(** [v > 0]. *)
Definition gt_0 (env : Env) (v : JsVal) : bool := PrimFloat.ltb 0%float (Number_of env v).

(** [v.length > 0] for a truthy [v]: a string and an array have their
    length, an object has the property it may hold, and for a number or a
    boolean [v.length] is [undefined]. *)
Definition length_gt_0 (env : Env) (v : JsVal) : bool :=
  match v with
  | JPrim (PStr s) => Nat.ltb 0 (String.length s)
  | JArr items => Nat.ltb 0 (length items)
  | JObj _ => gt_0 env (prop v "length")
  | JPrim _ => false
  end.

(** The test of [cleanupOutputs]:
    [output && output.metadata && output.metadata.prediction_id &&
     output.metadata.prediction_id.length > 0]. *)
Definition keeps (env : Env) (output : JsVal) : bool :=
  truthy output
  && truthy (prop output "metadata")
  && truthy (prop (prop output "metadata") "prediction_id")
  && length_gt_0 env (prop (prop output "metadata") "prediction_id").

(** [cleanupOutputs()], as the new value of [outputs]. *)
Definition cleanupOutputs (env : Env) (outputs : list JsVal) : list JsVal :=
  List.filter (keeps env) outputs.

End Raw.





(* ----------------------------------------------------------------- *)
(** *** Which entries hold which metadata object *)

(** As the actions of the store leave it: every reference of an entry is
    to an object of the heap, and two entries hold the same metadata object
    only when they have the same id. *)
Definition well_formed (w : World) : Prop :=
  (forall o l, In (Some o) (outputs w) -> o_metadata o = Some l -> l < length (heap w)) /\
  (forall o o' l, In (Some o) (outputs w) -> In (Some o') (outputs w) ->
     o_metadata o = Some l -> o_metadata o' = Some l -> o_id o = o_id o').

(** As storage gives it: every entry has a metadata object of its own. *)
Definition unshared (w : World) : Prop :=
  (forall o l, In (Some o) (outputs w) -> o_metadata o = Some l -> l < length (heap w)) /\
  (forall i j o o' l, outputs w !! i = Some (Some o) -> outputs w !! j = Some (Some o') ->
     o_metadata o = Some l -> o_metadata o' = Some l -> i = j).

(** [entry] has the id and the metadata object of an entry of [os]. *)
Definition carried (os : list (option Output)) (entry : option Output) : Prop :=
  match entry with
  | Some o' => exists o, In (Some o) os /\ o_id o' = o_id o /\ o_metadata o' = o_metadata o
  | None => True
  end.

(** An Output of [w] follows the prediction [s]. *)
Definition follows (w : World) (s : string) : Prop :=
  exists o, In (Some o) (outputs w) /\ prediction_id_of (heap w) (Some o) = PStr s.

(** A move of the Output ["output-a"]. *)
Definition moved_a : Position :=
  {| pos_id := PStr "output-a"; pos_x := JNum 10; pos_y := JNum 20;
     pos_rotation := JNum 90; pos_width := JNum 150; pos_height := undefined |}.
(* ================================================================= *)
(** ** Running actions *)

Lemma bind_run {A B} (m : M A) (k : A -> M B) (w : World) :
  (m ≫= k) w =
  match m w with
  | (Normal a, w') => k a w'
  | (Throw e, w') => (Throw e, w')
  end.
Proof. reflexivity. Qed.

Lemma for_of_cons {A} (a : A) (l : list A) (body : A -> M unit) (w : World) :
  for_of (a :: l) body w =
  match body a w with
  | (Normal _, w') => for_of l body w'
  | (Throw e, w') => (Throw e, w')
  end.
Proof. reflexivity. Qed.

(* ================================================================= *)
(** ** [cleanupOutputs] *)

Lemma cleanupOutputs_run (w : World) :
  cleanupOutputs w =
  (Normal tt, set_outputs w (List.filter (has_prediction_id (heap w)) (outputs w))).
Proof. reflexivity. Qed.

Lemma truthy_length_gt_0 (p : Prim) :
  truthy_prim p && length_gt_0 p = true ->
  exists s, p = PStr s /\ s <> "".
Proof.
  destruct p as [| | b | n | s]; cbn; intros H;
    try discriminate; try (rewrite andb_false_r in H; discriminate).
  exists s. split; [reflexivity |].
  intros ->. cbn in H. discriminate.
Qed.

Lemma has_prediction_id_spec (h : list Metadata) (entry : option Output) :
  has_prediction_id h entry = true ->
  exists o l m s,
    entry = Some o /\ o_metadata o = Some l /\ h !! l = Some m /\
    m_prediction_id m = PStr s /\ s <> "".
Proof.
  unfold has_prediction_id, metadata_of.
  destruct entry as [o |]; cbn; [| discriminate].
  destruct (o_metadata o) as [l |] eqn:Hl; cbn; [| discriminate].
  destruct (h !! l) as [m |] eqn:Hm; cbn; [| discriminate].
  intros H. apply truthy_length_gt_0 in H as (s & Hs & Hne).
  exists o, l, m, s. repeat split; assumption.
Qed.

(* ================================================================= *)
(** ** [urlToBase64] *)

Lemma convertSingle_not_remote env v :
  is_remote v = false -> convertSingle env v = ([], Normal v).
Proof.
  destruct v as [[| | b | n | s] | items | props]; cbn; try reflexivity.
  intros ->. reflexivity.
Qed.

Lemma map_convertSingle_not_remote env items :
  existsb is_remote items = false ->
  concat (map fst (map (convertSingle env) items)) = [] /\
  Promise_all (map snd (map (convertSingle env) items)) = Normal items.
Proof.
  induction items as [| v items IH]; cbn; [auto |].
  intros H. apply orb_false_iff in H as [Hv Hitems].
  rewrite (convertSingle_not_remote env v Hv). cbn.
  destruct (IH Hitems) as [-> ->]. auto.
Qed.

(** C8 (amended). [urlToBase64] returns its argument unchanged, and fetches
    nothing, whenever the argument is neither a string that starts with
    ["https"] nor an array with such a string among its items. *)
Theorem urlToBase64_pass_through env x :
  has_remote x = false -> urlToBase64 env x = ([], Normal x).
Proof.
  destruct x as [p | items | props]; cbn; intros H.
  - apply (convertSingle_not_remote env (JPrim p) H).
  - destruct (map_convertSingle_not_remote env items H) as [-> ->]. reflexivity.
  - reflexivity.
Qed.

Lemma convertSingle_completes env v :
  read_fails env v = false ->
  exists r, snd (convertSingle env v) = Normal r /\ isArray r = isArray v /\
            (fetch_rejects env v = true -> r = v) /\ (is_remote v = false -> r = v).
Proof.
  destruct v as [[| | b | n | s] | items | props]; cbn;
    try (intros _; eexists; repeat split; reflexivity).
  destruct (startsWith s "https"); cbn.
  - destruct (fetch_blob env s) as [| ty [res |]]; cbn; intros H; try discriminate.
    + eexists. repeat split; try reflexivity; discriminate.
    + eexists. repeat split; try reflexivity; discriminate.
  - intros _. eexists. repeat split; reflexivity.
Qed.

Lemma Promise_all_map env items :
  forallb (fun item => negb (read_fails env item)) items = true ->
  exists vs,
    Promise_all (map snd (map (convertSingle env) items)) = Normal vs /\
    length vs = length items /\
    forall i item, items !! i = Some item ->
      exists r, snd (convertSingle env item) = Normal r /\ vs !! i = Some r.
Proof.
  induction items as [| v items IH]; cbn; intros H.
  - exists []. repeat split. intros i item Hi. destruct i; discriminate.
  - apply andb_true_iff in H as [Hv Hitems].
    apply negb_true_iff in Hv.
    destruct (convertSingle_completes env v Hv) as (r & Hr & _).
    destruct (IH Hitems) as (vs & Hvs & Hlen & Hnth).
    rewrite Hr, Hvs. exists (r :: vs). split; [reflexivity |]. split; [cbn; lia |].
    intros [| i] item Hi; cbn in *.
    + injection Hi as <-. eauto.
    + apply Hnth, Hi.
Qed.

(** When no read of a fetched blob fails, [urlToBase64] preserves the
    shape of its argument.  An array gives an array of the same length whose
    item at each index is the conversion of the item at that index, taken
    on its own; an item whose fetch rejects stays the reference it was.
    Anything else gives a value that is not an array. *)
Theorem urlToBase64_shape env v :
  no_read_failure env v = true ->
  match v with
  | JArr items =>
      exists vs,
        snd (urlToBase64 env v) = Normal (JArr vs) /\
        length vs = length items /\
        forall i item, items !! i = Some item ->
          exists r, snd (convertSingle env item) = Normal r /\ vs !! i = Some r /\
                    (fetch_rejects env item = true -> r = item)
  | _ =>
      exists r,
        snd (urlToBase64 env v) = Normal r /\ isArray r = false /\
        (fetch_rejects env v = true -> r = v)
  end.
Proof.
  intros H. destruct v as [p | items | props].
  - cbn in H. apply negb_true_iff in H.
    destruct (convertSingle_completes env (JPrim p) H) as (r & Hr & Harr & Hrej & _).
    exists r. auto.
  - cbn in H. destruct (Promise_all_map env items H) as (vs & Hvs & Hlen & Hnth).
    exists vs. cbn. rewrite Hvs. split; [reflexivity |]. split; [assumption |].
    intros i item Hi. destruct (Hnth i item Hi) as (r & Hr & Hri).
    exists r. split; [assumption |]. split; [assumption |].
    assert (Hrf : read_fails env item = false).
    { rewrite forallb_forall in H. apply negb_true_iff, H.
      apply list_elem_of_In, list_elem_of_lookup. eauto. }
    destruct (convertSingle_completes env item Hrf) as (r' & Hr' & _ & Hrej & _).
    rewrite Hr in Hr'. injection Hr' as <-. exact Hrej.
  - exists (JObj props). cbn. auto.
Qed.

Lemma urlToBase64_shape_witness :
  no_read_failure (example_env (Throw FetchError) (Throw FetchError) FetchRejected)
    (JArr [JStr "https://h/a.png"; JStr "data:x"]) = true /\
  exists vs,
    snd (urlToBase64 (example_env (Throw FetchError) (Throw FetchError) FetchRejected)
           (JArr [JStr "https://h/a.png"; JStr "data:x"])) = Normal (JArr vs) /\
    length vs = 2.
Proof.
  split; [reflexivity |].
  destruct (urlToBase64_shape
              (example_env (Throw FetchError) (Throw FetchError) FetchRejected)
              (JArr [JStr "https://h/a.png"; JStr "data:x"]) eq_refl)
    as (vs & Hvs & Hlen & _).
  exists vs. split; assumption.
Defined.

Lemma urlToBase64_pass_through_witness :
  has_remote (JArr [JStr "data:image/png;base64,QUJD"; JStr "http://h/a.png"; null]) = false
  /\ urlToBase64 (example_env (Throw FetchError) (Throw FetchError) png_blob)
       (JArr [JStr "data:image/png;base64,QUJD"; JStr "http://h/a.png"; null])
     = ([], Normal (JArr [JStr "data:image/png;base64,QUJD"; JStr "http://h/a.png"; null])).
Proof.
  split; [reflexivity |]. apply urlToBase64_pass_through. reflexivity.
Defined.

(** C8, as stated, fails: an array is not a string that begins with a
    remote scheme, yet [urlToBase64] fetches its remote item and returns a
    different array. *)
Lemma urlToBase64_pass_through_counterexample :
  is_remote (JArr [JStr "https://h/a.png"]) = false /\
  urlToBase64 (example_env (Throw FetchError) (Throw FetchError) png_blob)
    (JArr [JStr "https://h/a.png"])
  = ([ReqAsset "https://h/a.png"], Normal (JArr [JStr "data:image/png;base64,QUJD"])) /\
  urlToBase64 (example_env (Throw FetchError) (Throw FetchError) png_blob)
    (JArr [JStr "https://h/a.png"])
  <> ([], Normal (JArr [JStr "https://h/a.png"])).
Proof.
  split; [reflexivity |]. split; [reflexivity |]. cbn. discriminate.
Qed.
(* ================================================================= *)
(** ** [createPrediction] *)

(** C6. When the creation call fails -- [$fetch] rejects, or the response
    carries an [error] that is set -- [createPrediction] returns nothing and
    leaves [outputs] (and every metadata object) exactly as it was. *)
Theorem createPrediction_failure env input w :
  creation_fails env w input ->
  fst (createPrediction env input w) = Normal None /\
  outputs (snd (createPrediction env input w)) = outputs w /\
  heap (snd (createPrediction env input w)) = heap w.
Proof.
  unfold creation_fails, createPrediction. run.
  destruct (post_prediction env (replicate_api_token w) input) as [[p |] | e]; cbn.
  - intros ->. cbn. auto.
  - intros [].
  - auto.
Qed.

Lemma createPrediction_failure_witness :
  creation_fails (example_env (Normal (Some (job1 "failed" null (JStr "invalid token"))))
                    (Throw FetchError) FetchRejected) empty_world example_input /\
  outputs (snd (createPrediction
                  (example_env (Normal (Some (job1 "failed" null (JStr "invalid token"))))
                     (Throw FetchError) FetchRejected) example_input empty_world)) = [].
Proof.
  split; [reflexivity |].
  apply (createPrediction_failure
           (example_env (Normal (Some (job1 "failed" null (JStr "invalid token"))))
              (Throw FetchError) FetchRejected) example_input empty_world).
  reflexivity.
Defined.

(** [split] *)
Lemma split_no_sep sep s : has_char sep s = false -> split sep s = [s].
Proof.
  induction s as [| c s IH]; cbn; [reflexivity |].
  intros H. apply orb_false_iff in H as [Hc Hs].
  rewrite Hc, (IH Hs). reflexivity.
Qed.

Lemma split_app sep s1 s2 :
  has_char sep s1 = false ->
  split sep (s1 ++ String sep s2) = s1 :: split sep s2.
Proof.
  induction s1 as [| c s1 IH]; simpl.
  - intros _. rewrite Ascii.eqb_refl. reflexivity.
  - intros H. apply orb_false_iff in H as [Hc Hs].
    rewrite Hc, (IH Hs). reflexivity.
Qed.

Lemma decimal_no_colon n : has_char ":" (decimal n) = false.
Proof.
  unfold decimal.
  assert (H : forall u, has_char ":" (NilEmpty.string_of_uint u) = false).
  { induction u; cbn; auto. }
  destruct (N.to_uint n); cbn; auto; apply H.
Qed.

Lemma split_aspect_ratio W H :
  split ":" (decimal W ++ ":" ++ decimal H) = [decimal W; decimal H].
Proof.
  change (decimal W ++ ":" ++ decimal H) with (decimal W ++ String ":" (decimal H)).
  rewrite split_app by apply decimal_no_colon.
  rewrite split_no_sep by apply decimal_no_colon. reflexivity.
Qed.

Lemma parse_number_decimal n : parse_number (decimal n) = Z_to_float (Z.of_N n).
Proof.
  unfold parse_number, decimal. destruct n as [| p]; [reflexivity |].
  cbn [N.to_uint]. rewrite NilZero.usu by apply DecimalPos.Unsigned.to_uint_nonnil.
  change (N.of_uint (Pos.to_uint p)) with (Pos.of_uint (Pos.to_uint p)).
  rewrite DecimalPos.Unsigned.of_to. reflexivity.
Qed.

(** C5. On a successful creation call whose input has [aspect_ratio] of the
    form ["W:H"], with [W] and [H] positive integers that [Number] reads as
    themselves, [createPrediction] appends one Output whose placement has
    width 300 and height [(H / W) * 300], in the arithmetic of JavaScript
    numbers; for ["4:3"] the height is 225. *)
Theorem createPrediction_dimensions env input w (W H : positive) prediction :
  (forall n, Number_of_string env (decimal n) = Z_to_float (Z.of_N n)) ->
  post_prediction env (replicate_api_token w) input = Normal (Some prediction) ->
  truthy (p_error prediction) = false ->
  get_prop input "aspect_ratio" = Normal (JStr (decimal (Npos W) ++ ":" ++ decimal (Npos H))) ->
  exists o m,
    fst (createPrediction env input w) = Normal (Some prediction) /\
    outputs (snd (createPrediction env input w)) = (outputs w ++ [Some o])%list /\
    metadata_of (heap (snd (createPrediction env input w))) (Some o) = Some m /\
    o_status o = p_status prediction /\
    m_prediction_id m = p_id prediction /\
    m_width m = JNum 300 /\
    m_height m = JNum (Z_to_float (Zpos H) / Z_to_float (Zpos W) * 300) /\
    (W = 4%positive -> H = 3%positive -> m_height m = JNum 225).
Proof.
  intros HNumber Hpost Herror Haspect.
  unfold createPrediction. run. rewrite Hpost. cbn. rewrite Herror. run.
  rewrite Haspect. run. rewrite split_aspect_ratio. cbn.
  rewrite !HNumber.
  eexists _, _. split; [reflexivity |]. split; [reflexivity |].
  split.
  { unfold metadata_of. cbn. rewrite lookup_app_r by lia.
    rewrite Nat.sub_diag. reflexivity. }
  cbn. repeat split.
  intros -> ->. reflexivity.
Qed.

Lemma createPrediction_dimensions_witness :
  exists o m,
    outputs (snd (createPrediction
                    (example_env (Normal (Some (job1 "starting" null null)))
                       (Throw FetchError) FetchRejected) example_input empty_world))
    = [Some o] /\
    metadata_of (heap (snd (createPrediction
                    (example_env (Normal (Some (job1 "starting" null null)))
                       (Throw FetchError) FetchRejected) example_input empty_world)))
      (Some o) = Some m /\
    m_width m = JNum 300 /\ m_height m = JNum 225.
Proof.
  destruct (createPrediction_dimensions
              (example_env (Normal (Some (job1 "starting" null null)))
                 (Throw FetchError) FetchRejected)
              example_input empty_world 4 3 (job1 "starting" null null)
              parse_number_decimal eq_refl eq_refl eq_refl)
    as (o & m & _ & Houts & Hm & _ & _ & Hwidth & _ & Hheight).
  exists o, m. split; [exact Houts |]. split; [exact Hm |].
  split; [exact Hwidth |]. apply Hheight; reflexivity.
Defined.
(* ================================================================= *)
(** ** [pollIncompletePredictions]: the request *)

Lemma pollIncompletePredictions_run env w :
  let w1 := snd (cleanupOutputs w) in
  let ids := prediction_ids w1 in
  let w2 := add_requests w1 [ReqPoll ids (replicate_api_token w)] in
  pollIncompletePredictions env w =
  (Normal tt,
   if Nat.eqb (length ids) 0 then w1
   else match get_predictions env ids (replicate_api_token w) with
        | Throw _ => w2
        | Normal pollResponse =>
            if poll_failed pollResponse then w2
            else snd (for_of (predictionsToProcess pollResponse) (reconcile env) w2)
        end).
Proof.
  unfold pollIncompletePredictions. run.
  destruct (Nat.eqb _ 0); [reflexivity |]. run.
  destruct (get_predictions env _ _) as [pollResponse | e]; cbn; [| reflexivity].
  destruct (poll_failed pollResponse); [reflexivity |].
  match goal with |- context [for_of ?l ?b ?w] => destruct (for_of l b w) as [[[] | e] w'] end;
    reflexivity.
Qed.

Lemma extends_refl w : extends w w.
Proof.
  repeat split. exists []. split; [constructor | symmetry; apply app_nil_r].
Qed.

Lemma extends_trans w1 w2 w3 : extends w1 w2 -> extends w2 w3 -> extends w1 w3.
Proof.
  intros (Ht & Hh & Hl & a & Ha & Hr) (Ht' & Hh' & Hl' & a' & Ha' & Hr').
  repeat split; try congruence.
  exists (a ++ a')%list. split; [apply Forall_app; auto |].
  rewrite Hr', Hr, app_assoc. reflexivity.
Qed.

Lemma for_of_extends {A} (body : A -> M unit) (l : list A) :
  (forall a w, extends w (snd (body a w))) ->
  forall w, extends w (snd (for_of l body w)).
Proof.
  intros Hbody. induction l as [| a l IH]; intros w.
  - apply extends_refl.
  - rewrite for_of_cons. specialize (Hbody a w).
    destruct (body a w) as [[[] | e] w']; cbn in *.
    + eapply extends_trans; [exact Hbody | apply IH].
    + exact Hbody.
Qed.

Lemma convertSingle_requests env v : Forall is_asset_request (fst (convertSingle env v)).
Proof.
  destruct v as [[| | b | n | s] | items | props]; cbn; try constructor.
  destruct (startsWith s "https"); cbn; repeat constructor.
Qed.

Lemma urlToBase64_requests env v : Forall is_asset_request (fst (urlToBase64 env v)).
Proof.
  destruct v as [p | items | props]; cbn; try apply (convertSingle_requests env (JPrim p));
    try constructor.
  induction items as [| v items IH]; cbn; [constructor |].
  apply Forall_app. split; [apply convertSingle_requests | exact IH].
Qed.

Lemma update_output_extends env prediction output w :
  extends w (snd (update_output env prediction output w)).
Proof.
  unfold update_output. run.
  destruct (findIndex_id (o_id output) (outputs w)) as [[i |] | e]; cbn;
    try apply extends_refl.
  destruct (truthy (p_output prediction)); run.
  - pose proof (urlToBase64_requests env (p_output prediction)) as Hreq.
    destruct (urlToBase64 env (p_output prediction)) as [reqs [v | e]]; cbn in *;
      (repeat split; [apply length_insert | exists reqs; split; [exact Hreq | reflexivity]]).
  - repeat split; [apply length_insert |].
    exists []. split; [constructor | symmetry; apply app_nil_r].
Qed.

Lemma reconcile_extends env prediction w :
  extends w (snd (reconcile env prediction w)).
Proof.
  destruct prediction as [prediction |]; cbn; [| apply extends_refl].
  destruct (truthy_prim (p_id prediction)); cbn; [| apply extends_refl].
  run. apply for_of_extends. intros [o |] w'; [apply update_output_extends | apply extends_refl].
Qed.
Lemma same_value_zero_string s p : same_value_zero (PStr s) p = true <-> p = PStr s.
Proof.
  destruct p as [| | b | n | t]; cbn; try (split; [discriminate | discriminate]).
  rewrite String.eqb_eq. split; [intros -> | intros [= ->]]; reflexivity.
Qed.

Lemma Set_values_strings (l : list Prim) :
  Forall (fun p => exists s, p = PStr s) l ->
  List.NoDup (Set_values l) /\ forall x, In x (Set_values l) <-> In x l.
Proof.
  induction 1 as [| a l [s ->] Hl [IHnodup IHin]]; cbn.
  - split; [constructor | tauto].
  - split.
    + constructor.
      * rewrite List.filter_In. intros [_ H].
        cbn in H. rewrite String.eqb_refl in H. discriminate.
      * apply List.NoDup_filter, IHnodup.
    + intros x. rewrite List.filter_In, IHin, negb_true_iff. split.
      * intros [<- | [Hx _]]; auto.
      * intros [<- | Hx]; [auto |].
        destruct (same_value_zero (PStr s) x) eqn:E; [| auto].
        apply same_value_zero_string in E. auto.
Qed.

Lemma is_incomplete_spec h entry :
  is_incomplete h entry = true <->
  exists o m,
    entry = Some o /\ metadata_of h entry = Some m /\
    truthy_prim (m_prediction_id m) = true /\
    is_string (o_status o) "succeeded" = false /\
    is_string (o_status o) "failed" = false.
Proof.
  unfold is_incomplete. destruct entry as [o |].
  - destruct (metadata_of h (Some o)) as [m |].
    + rewrite !andb_true_iff, !negb_true_iff. split.
      * intros [[H1 H2] H3]. exists o, m. auto.
      * intros (o' & m' & [= <-] & [= <-] & H1 & H2 & H3). auto.
    + split; [discriminate | intros (o' & m' & _ & [=] & _)].
  - split; [discriminate | intros (o' & m' & [=] & _)].
Qed.

(** The ids of the request are the pollable ids of the registry, each
    once. *)
Lemma prediction_ids_spec w :
  let w1 := snd (cleanupOutputs w) in
  List.NoDup (prediction_ids w1) /\
  forall p, In p (prediction_ids w1) <-> pollable w p.
Proof.
  cbn. set (w1 := set_outputs w (List.filter (has_prediction_id (heap w)) (outputs w))).
  unfold prediction_ids.
  match goal with |- context [Set_values ?c] => set (candidates := c) end.
  assert (Hstr : Forall (fun p => exists s, p = PStr s) candidates).
  { apply List.Forall_forall. intros p Hp. apply List.filter_In in Hp as [_ Hp].
    apply truthy_length_gt_0 in Hp as (s & -> & _). eauto. }
  destruct (Set_values_strings candidates Hstr) as [Hnodup Hin].
  split; [exact Hnodup |].
  intros p. rewrite Hin.
  unfold candidates. rewrite List.filter_In, List.in_map_iff. split.
  - intros [(entry & Hp & Hentry) Hvalid].
    apply List.filter_In in Hentry as [Hentry Hinc].
    cbn in Hentry. apply List.filter_In in Hentry as [Hentry _].
    apply is_incomplete_spec in Hinc as (o & m & -> & Hm & Htruthy & Hs & Hf).
    cbn in Hm.
    unfold prediction_id_of in Hp. cbn in Hp. rewrite Hm in Hp.
    unfold or_else in Hp. rewrite Htruthy in Hp. subst p.
    apply truthy_length_gt_0 in Hvalid as (s & Hid & Hne).
    exists o, m, s. repeat split; assumption.
  - intros (o & m & s & Hentry & Hm & Hid & Hne & -> & Hs & Hf).
    assert (Hvalid : truthy_prim (PStr s) && length_gt_0 (PStr s) = true).
    { destruct s; [congruence | reflexivity]. }
    split; [| exact Hvalid].
    exists (Some o). split.
    + unfold prediction_id_of. cbn. rewrite Hm, Hid. unfold or_else.
      apply andb_true_iff in Hvalid as [-> _]. reflexivity.
    + apply List.filter_In. split.
      * cbn. apply List.filter_In. split; [exact Hentry |].
        unfold has_prediction_id. rewrite Hm, Hid. exact Hvalid.
      * apply is_incomplete_spec. exists o, m. cbn. repeat split; try assumption.
        rewrite Hid. apply andb_true_iff in Hvalid as [-> _]. reflexivity.
Qed.

(** C3. Every call of [pollIncompletePredictions] completes without error
    and issues at most one poll request.  The ids of that request are, each
    once, the non-empty [prediction_id]s of the Outputs whose status is
    neither ['succeeded'] nor ['failed']; when there is none, no request at
    all is issued.  The only other requests are asset fetches. *)
Theorem pollIncompletePredictions_request env w :
  exists ids assets,
    List.NoDup ids /\
    (forall p, In p ids <-> pollable w p) /\
    Forall is_asset_request assets /\
    fst (pollIncompletePredictions env w) = Normal tt /\
    requests (snd (pollIncompletePredictions env w)) =
      (requests w ++
         match ids with
         | [] => []
         | _ :: _ => ReqPoll ids (replicate_api_token w) :: assets
         end)%list.
Proof.
  destruct (prediction_ids_spec w) as [Hnodup Hin].
  rewrite pollIncompletePredictions_run. cbn zeta.
  set (w1 := snd (cleanupOutputs w)) in *.
  exists (prediction_ids w1).
  destruct (prediction_ids w1) as [| p ids] eqn:Hids.
  { exists []. cbn. repeat split; auto; try apply Hin. symmetry. apply app_nil_r. }
  cbn [length Nat.eqb fst snd].
  set (w2 := add_requests w1 _).
  assert (Hw2 : forall w', extends w2 w' ->
            exists assets, Forall is_asset_request assets /\
              requests w' = (requests w ++ ReqPoll (p :: ids) (replicate_api_token w) :: assets)%list).
  { intros w' (_ & _ & _ & assets & Hassets & Hreq). exists assets. split; [exact Hassets |].
    rewrite Hreq. cbn. rewrite <- app_assoc. reflexivity. }
  assert (Hgoal : forall w', extends w2 w' ->
            exists assets, List.NoDup (p :: ids) /\ (forall q, In q (p :: ids) <-> pollable w q) /\
              Forall is_asset_request assets /\ Normal tt = Normal tt /\
              requests w' = (requests w ++ ReqPoll (p :: ids) (replicate_api_token w) :: assets)%list).
  { intros w' Hext. destruct (Hw2 w' Hext) as (assets & Ha & Hr). exists assets. auto. }
  destruct (get_predictions env (p :: ids) (replicate_api_token w)) as [pollResponse | e].
  - destruct (poll_failed pollResponse).
    + apply Hgoal, extends_refl.
    + apply Hgoal, for_of_extends. intros. apply reconcile_extends.
  - apply Hgoal, extends_refl.
Qed.
Lemma failed_poll_run env w :
  poll_call_fails env w ->
  exists reqs,
    pollIncompletePredictions env w =
    (Normal tt,
     {| replicate_api_token := replicate_api_token w;
        outputs := List.filter (has_prediction_id (heap w)) (outputs w);
        heap := heap w;
        requests := reqs |}).
Proof.
  unfold poll_call_fails. rewrite pollIncompletePredictions_run. cbn zeta. intros Hfails.
  destruct (Nat.eqb _ 0); [eexists; reflexivity |].
  destruct (get_predictions env _ _) as [pollResponse | e]; [| eexists; reflexivity].
  rewrite Hfails. eexists; reflexivity.
Qed.

(** C1 (amended). When the batched poll call fails, [pollIncompletePredictions]
    completes without error and reconciles nothing: the registry is what
    the cleanup pass at its start made of it -- the entries with a
    non-empty [prediction_id], in their order, untouched -- and so is
    unchanged when every entry had one; no metadata object changes. *)
Theorem pollIncompletePredictions_failed_poll env w :
  poll_call_fails env w ->
  fst (pollIncompletePredictions env w) = Normal tt /\
  outputs (snd (pollIncompletePredictions env w)) =
    List.filter (has_prediction_id (heap w)) (outputs w) /\
  heap (snd (pollIncompletePredictions env w)) = heap w /\
  (Forall (fun entry => has_prediction_id (heap w) entry = true) (outputs w) ->
   outputs (snd (pollIncompletePredictions env w)) = outputs w).
Proof.
  intros Hfails. destruct (failed_poll_run env w Hfails) as [reqs ->]. cbn.
  repeat split.
  intros Hall. apply forallb_filter_id.
  apply forallb_forall. rewrite List.Forall_forall in Hall. exact Hall.
Qed.

Lemma pollIncompletePredictions_failed_poll_witness :
  poll_call_fails (example_env (Throw FetchError) (Throw FetchError) FetchRejected) stale_world /\
  length (outputs (snd (pollIncompletePredictions
                          (example_env (Throw FetchError) (Throw FetchError) FetchRejected)
                          stale_world))) = 1.
Proof.
  split; [exact I |].
  destruct (pollIncompletePredictions_failed_poll
              (example_env (Throw FetchError) (Throw FetchError) FetchRejected) stale_world I)
    as (_ & -> & _).
  reflexivity.
Defined.

(** C1, as stated, fails: the poll call rejects, and yet the registry has
    changed -- the entry without metadata is gone. *)
Lemma pollIncompletePredictions_failed_poll_counterexample :
  get_predictions (example_env (Throw FetchError) (Throw FetchError) FetchRejected)
    [PStr "job1"] (PStr "r8_token") = Throw FetchError /\
  requests (snd (pollIncompletePredictions
                   (example_env (Throw FetchError) (Throw FetchError) FetchRejected)
                   stale_world)) = [ReqPoll [PStr "job1"] (PStr "r8_token")] /\
  length (outputs stale_world) = 2 /\
  length (outputs (snd (pollIncompletePredictions
                          (example_env (Throw FetchError) (Throw FetchError) FetchRejected)
                          stale_world))) = 1 /\
  outputs (snd (pollIncompletePredictions
                  (example_env (Throw FetchError) (Throw FetchError) FetchRejected)
                  stale_world)) <> outputs stale_world.
Proof.
  repeat split; try reflexivity. cbn. discriminate.
Qed.
(* ================================================================= *)
(** ** [pollIncompletePredictions]: the reconciliation *)

Lemma update_output_run env prediction o w i :
  findIndex_id (o_id o) (outputs w) = Normal (Some i) ->
  exists reqs,
    update_output env prediction o w =
    (Normal tt,
     {| replicate_api_token := replicate_api_token w;
        outputs := <[i := Some (updated env prediction o)]> (outputs w);
        heap := heap w;
        requests := reqs |}).
Proof.
  intros Hi. unfold update_output, updated. run. rewrite Hi. cbn.
  destruct (truthy (p_output prediction)); run.
  - destruct (urlToBase64 env (p_output prediction)) as [reqs [v | e]]; cbn;
      eexists; reflexivity.
  - eexists. reflexivity.
Qed.

(** [findIndex] only looks at the ids. *)
Lemma findIndex_id_ext id (os os' : list (option Output)) :
  map (fmap o_id) os = map (fmap o_id) os' ->
  findIndex_id id os = findIndex_id id os'.
Proof.
  revert os'. induction os as [| e os IH]; intros [| e' os'] H; try discriminate; [reflexivity |].
  cbn in H. injection H as He Hos.
  destruct e as [o |], e' as [o' |]; try discriminate; cbn; [| reflexivity].
  injection He as ->. rewrite (IH os' Hos). reflexivity.
Qed.

Lemma apply_prediction_id env h entry prediction :
  fmap o_id (apply_prediction env h entry prediction) = fmap o_id entry.
Proof.
  destruct prediction as [p |], entry as [o |]; cbn; try reflexivity.
  destruct (applies h p (Some o)); reflexivity.
Qed.


Lemma map_apply_prediction_ids env h prediction os :
  map (fmap o_id) (map (fun e => apply_prediction env h e prediction) os) = map (fmap o_id) os.
Proof.
  rewrite map_map. apply map_ext. intros e. apply apply_prediction_id.
Qed.

Lemma ids_distinct_ext os os' :
  map (fmap o_id) os = map (fmap o_id) os' -> ids_distinct os -> ids_distinct os'.
Proof.
  intros Hids Hdistinct i o' Hi.
  assert (Hio : map (fmap o_id) os' !! i = Some (Some (o_id o'))).
  { rewrite list_lookup_fmap, Hi. reflexivity. }
  rewrite <- Hids, list_lookup_fmap in Hio.
  destruct (os !! i) as [[o |] |] eqn:Ho; try discriminate.
  cbn in Hio. injection Hio as Hid.
  rewrite <- (findIndex_id_ext (o_id o') os os' Hids), <- Hid.
  apply Hdistinct, Ho.
Qed.

(** String ids without repetition are distinct in the sense of
    [ids_distinct]. *)
Lemma ids_distinct_NoDup (os : list (option Output)) (ids : list string) :
  map (fmap o_id) os = map (fun s => Some (PStr s)) ids ->
  List.NoDup ids ->
  ids_distinct os.
Proof.
  revert ids. induction os as [| e os IH]; intros [| s ids] Hids Hnodup i o Hi;
    try discriminate.
  cbn in Hids. injection Hids as He Hos.
  destruct e as [o0 |]; [| discriminate]. cbn in He. injection He as Hs.
  inversion Hnodup as [| ? ? Hnotin Hnodup']; subst.
  destruct i as [| i]; [cbn in Hi | change (os !! i = Some (Some o)) in Hi].
  - injection Hi as <-. cbn. rewrite Hs. cbn. rewrite String.eqb_refl. reflexivity.
  - assert (Ht : exists t, o_id o = PStr t /\ In t ids).
    { assert (H : map (fmap o_id) os !! i = Some (Some (o_id o))).
      { rewrite list_lookup_fmap, Hi. reflexivity. }
      rewrite Hos, list_lookup_fmap in H.
      destruct (ids !! i) as [t |] eqn:Et; [| discriminate].
      cbn in H. injection H as H. exists t. split; [congruence |].
      apply list_elem_of_In, list_elem_of_lookup. eauto. }
    destruct Ht as (t & Ht & Hin).
    cbn. rewrite Hs, Ht. cbn.
    destruct (String.eqb_spec s t) as [-> | _]; [contradiction |].
    rewrite <- Ht, (IH ids Hos Hnodup' i o Hi). reflexivity.
Qed.

(** The inner loop, entry by entry: [done] has been passed, [rest] is to
    come. *)
Lemma update_loop env prediction h :
  truthy_prim (p_id prediction) = true ->
  forall rest done w,
    heap w = h ->
    outputs w = (map (fun e => apply_prediction env h e (Some prediction)) done ++ rest)%list ->
    ids_distinct (done ++ rest)%list ->
    let r :=
      for_of
        (List.filter (fun output => strict_eq (prediction_id_of h output) (p_id prediction)) rest)
        (fun output =>
           match output with
           | Some output => update_output env prediction output
           | None => throw TypeError
           end) w in
    fst r = Normal tt /\
    heap (snd r) = h /\
    replicate_api_token (snd r) = replicate_api_token w /\
    outputs (snd r) =
      (map (fun e => apply_prediction env h e (Some prediction)) (done ++ rest))%list.
Proof.
  intros Htruthy. set (f := fun e => apply_prediction env h e (Some prediction)).
  induction rest as [| e rest IH]; intros done w Hheap Houts Hdistinct.
  - cbn. rewrite Houts, !app_nil_r. auto.
  - cbn [List.filter].
    destruct (strict_eq (prediction_id_of h e) (p_id prediction)) eqn:Hmatch.
    + destruct e as [o |].
      2:{ cbn in Hmatch. destruct (p_id prediction); discriminate. }
      assert (Hfind : findIndex_id (o_id o) (outputs w) = Normal (Some (length done))).
      { rewrite (findIndex_id_ext (o_id o) (outputs w) (done ++ Some o :: rest)).
        - apply Hdistinct. rewrite lookup_app_r by lia. rewrite Nat.sub_diag. reflexivity.
        - rewrite Houts, !map_app. f_equal. apply map_apply_prediction_ids. }
      destruct (update_output_run env prediction o w (length done) Hfind) as [reqs Hrun].
      rewrite for_of_cons, Hrun.
      specialize (IH (done ++ [Some o])%list
                    {| replicate_api_token := replicate_api_token w;
                       outputs := <[length done := Some (updated env prediction o)]> (outputs w);
                       heap := heap w; requests := reqs |}).
      cbn [heap outputs replicate_api_token] in IH.
      rewrite <- app_assoc in IH. cbn [app] in IH.
      apply IH; [exact Hheap | | exact Hdistinct].
      rewrite Houts, map_app. cbn [map].
      replace (length done) with (length (map f done) + 0) by (rewrite length_map; lia).
      rewrite insert_app_r. cbn. rewrite <- app_assoc. cbn.
      unfold applies. rewrite Htruthy, Hmatch. reflexivity.
    + specialize (IH (done ++ [e])%list w Hheap).
      rewrite <- app_assoc in IH. cbn [app] in IH.
      apply IH; [| exact Hdistinct].
      assert (Hfe : f e = e).
      { unfold f, apply_prediction, applies. destruct e as [o |]; [| reflexivity].
        rewrite Hmatch, andb_false_r. reflexivity. }
      rewrite Houts, map_app. cbn [map]. rewrite Hfe, <- app_assoc. reflexivity.
Qed.
Lemma reconcile_run env h prediction w :
  heap w = h ->
  ids_distinct (outputs w) ->
  fst (reconcile env prediction w) = Normal tt /\
  heap (snd (reconcile env prediction w)) = h /\
  replicate_api_token (snd (reconcile env prediction w)) = replicate_api_token w /\
  outputs (snd (reconcile env prediction w)) =
    map (fun e => apply_prediction env h e prediction) (outputs w).
Proof.
  intros Hheap Hdistinct.
  assert (Hid : forall f : option Output -> option Output,
             (forall e, f e = e) -> outputs w = map f (outputs w)).
  { intros f Hf. rewrite (map_ext f (fun e => e) Hf), map_id. reflexivity. }
  destruct prediction as [p |]; cbn.
  2:{ repeat split; [exact Hheap |]. apply Hid. intros [o |]; reflexivity. }
  destruct (truthy_prim (p_id p)) eqn:Htruthy; cbn.
  2:{ repeat split; [exact Hheap |]. apply Hid. intros [o |]; cbn; [| reflexivity].
      unfold applies. rewrite Htruthy. reflexivity. }
  run. rewrite Hheap.
  apply (update_loop env p h Htruthy (outputs w) [] w Hheap); [reflexivity | exact Hdistinct].
Qed.

Lemma reconcile_all env h predictions :
  forall w,
    heap w = h ->
    ids_distinct (outputs w) ->
    fst (for_of predictions (reconcile env) w) = Normal tt /\
    heap (snd (for_of predictions (reconcile env) w)) = h /\
    replicate_api_token (snd (for_of predictions (reconcile env) w)) = replicate_api_token w /\
    outputs (snd (for_of predictions (reconcile env) w)) =
      map (fun e => fold_left (apply_prediction env h) predictions e) (outputs w).
Proof.
  induction predictions as [| p predictions IH]; intros w Hheap Hdistinct.
  - cbn. rewrite map_id. auto.
  - rewrite for_of_cons.
    destruct (reconcile_run env h p w Hheap Hdistinct) as (Hfst & Hh & Htok & Houts).
    destruct (reconcile env p w) as [c w']. cbn in Hfst, Hh, Htok, Houts. subst c.
    destruct (IH w' Hh) as (Hfst' & Hh' & Htok' & Houts').
    { rewrite Houts. eapply ids_distinct_ext; [| exact Hdistinct].
      symmetry. apply map_apply_prediction_ids. }
    repeat split; try assumption; [congruence |].
    rewrite Houts', Houts, map_map. reflexivity.
Qed.

(** The registry after a poll that was answered, when its ids are
    distinct: every prediction of the response, in order, applied to every
    entry left by the cleanup. *)
Lemma pollIncompletePredictions_reconciles env w pollResponse :
  ids_distinct (outputs (snd (cleanupOutputs w))) ->
  prediction_ids (snd (cleanupOutputs w)) <> [] ->
  get_predictions env (prediction_ids (snd (cleanupOutputs w))) (replicate_api_token w)
    = Normal pollResponse ->
  poll_failed pollResponse = false ->
  heap (snd (pollIncompletePredictions env w)) = heap w /\
  outputs (snd (pollIncompletePredictions env w)) =
    map (fun e => fold_left (apply_prediction env (heap w)) (predictionsToProcess pollResponse) e)
      (outputs (snd (cleanupOutputs w))).
Proof.
  intros Hdistinct Hids Hpoll Hok.
  rewrite pollIncompletePredictions_run. cbn zeta. cbn [snd].
  destruct (prediction_ids (snd (cleanupOutputs w))) as [| p ids] eqn:E; [congruence |].
  cbn [length Nat.eqb]. rewrite Hpoll, Hok.
  match goal with |- context [for_of _ _ ?w2] =>
    destruct (reconcile_all env (heap w) (predictionsToProcess pollResponse) w2)
      as (_ & Hh & _ & Houts)
  end; [reflexivity | exact Hdistinct |].
  split; [exact Hh | exact Houts].
Qed.

Lemma strict_eq_string s p : strict_eq (PStr s) p = true -> p = PStr s.
Proof.
  destruct p as [| | b | n | t]; cbn; try discriminate.
  intros H. apply String.eqb_eq in H. congruence.
Qed.

Lemma fold_apply_others env h others o s :
  prediction_id_of h (Some o) = PStr s ->
  Forall (fun other =>
            match other with
            | Some other => strict_eq (PStr s) (p_id other) = false
            | None => True
            end) others ->
  fold_left (apply_prediction env h) others (Some o) = Some o.
Proof.
  intros Hpid. induction 1 as [| q others Hq _ IH]; [reflexivity |].
  cbn [fold_left]. replace (apply_prediction env h (Some o) q) with (Some o); [exact IH |].
  destruct q as [q |]; [| reflexivity]. cbn. unfold applies.
  rewrite Hpid, Hq, andb_false_r. reflexivity.
Qed.

Lemma fold_apply_sole env h prediction predictions o s :
  prediction_id_of h (Some o) = PStr s ->
  applies h prediction (Some o) = true ->
  sole_report prediction predictions ->
  fold_left (apply_prediction env h) predictions (Some o) = Some (updated env prediction o).
Proof.
  intros Hpid Happlies (before & after & -> & Hothers).
  apply Forall_app in Hothers as [Hbefore Hafter].
  assert (Hj : p_id prediction = PStr s).
  { unfold applies in Happlies. apply andb_true_iff in Happlies as [_ H].
    rewrite Hpid in H. apply strict_eq_string, H. }
  rewrite Hj in Hbefore, Hafter.
  rewrite fold_left_app. rewrite (fold_apply_others env h before o s Hpid Hbefore).
  cbn [fold_left]. cbn [apply_prediction]. rewrite Happlies.
  apply (fold_apply_others env h after (updated env prediction o) s); [| exact Hafter].
  exact Hpid.
Qed.
Lemma cleaned_prediction_id w i o :
  outputs (snd (cleanupOutputs w)) !! i = Some (Some o) ->
  exists s, prediction_id_of (heap w) (Some o) = PStr s.
Proof.
  intros Hi. apply list_elem_of_lookup_2, list_elem_of_In in Hi.
  cbn in Hi. apply List.filter_In in Hi as [_ Hvalid].
  apply has_prediction_id_spec in Hvalid as (o' & l & m & s & [= <-] & Hl & Hm & Hs & _).
  exists s. unfold prediction_id_of, metadata_of. cbn. rewrite Hl. cbn. rewrite Hm. exact Hs.
Qed.

Lemma cleaned_prediction_id_nonempty w i o s :
  outputs (snd (cleanupOutputs w)) !! i = Some (Some o) ->
  prediction_id_of (heap w) (Some o) = PStr s ->
  truthy_prim (PStr s) = true.
Proof.
  intros Hi Hs. apply list_elem_of_lookup_2, list_elem_of_In in Hi.
  cbn in Hi. apply List.filter_In in Hi as [_ Hvalid].
  unfold has_prediction_id in Hvalid. unfold prediction_id_of in Hs.
  destruct (metadata_of (heap w) (Some o)) as [m |]; [| discriminate].
  rewrite Hs in Hvalid. apply andb_true_iff in Hvalid as [H _]. exact H.
Qed.

(** An Output of a registry with distinct ids, after a poll that reports
    its prediction: the copy [updated], at the place it had. *)
Lemma pollIncompletePredictions_updates env w prediction i o :
  ids_distinct (outputs (snd (cleanupOutputs w))) ->
  poll_reports env w prediction ->
  outputs (snd (cleanupOutputs w)) !! i = Some (Some o) ->
  strict_eq (prediction_id_of (heap w) (Some o)) (p_id prediction) = true ->
  outputs (snd (pollIncompletePredictions env w)) !! i = Some (Some (updated env prediction o)).
Proof.
  intros Hdistinct (Hids & pollResponse & Hpoll & Hok & Hsole) Hi Hmatch.
  destruct (pollIncompletePredictions_reconciles env w pollResponse Hdistinct Hids Hpoll Hok)
    as [_ ->].
  rewrite list_lookup_fmap, Hi. cbn. f_equal.
  destruct (cleaned_prediction_id w i o Hi) as [s Hs].
  apply (fold_apply_sole env (heap w) prediction _ o s Hs); [| exact Hsole].
  unfold applies. rewrite Hmatch, andb_true_r.
  rewrite Hs in Hmatch. apply strict_eq_string in Hmatch. rewrite Hmatch.
  apply (cleaned_prediction_id_nonempty w i o s Hi Hs).
Qed.
(** C2 (amended). In a registry whose ids are distinct, let the poll report
    a prediction that carries an output.  Every Output with that
    [prediction_id] keeps its place, its id and its metadata, and takes the
    status and the input of the prediction.  If [urlToBase64] rejects -- the
    read of a fetched blob fails -- the Output keeps the result it had; if it
    resolves, its value is the new result, and after a rejected fetch that
    value is the reference itself. *)
Theorem pollIncompletePredictions_conversion env w prediction i o :
  ids_distinct (outputs (snd (cleanupOutputs w))) ->
  poll_reports env w prediction ->
  truthy (p_output prediction) = true ->
  outputs (snd (cleanupOutputs w)) !! i = Some (Some o) ->
  strict_eq (prediction_id_of (heap w) (Some o)) (p_id prediction) = true ->
  exists o',
    outputs (snd (pollIncompletePredictions env w)) !! i = Some (Some o') /\
    o_id o' = o_id o /\ o_metadata o' = o_metadata o /\
    o_status o' = p_status prediction /\ o_input o' = p_input prediction /\
    (forall e, snd (urlToBase64 env (p_output prediction)) = Throw e ->
               o_output o' = o_output o) /\
    (forall converted, snd (urlToBase64 env (p_output prediction)) = Normal converted ->
               o_output o' = converted) /\
    (fetch_rejects env (p_output prediction) = true -> o_output o' = p_output prediction).
Proof.
  intros Hdistinct Hreports Houtput Hi Hmatch.
  exists (updated env prediction o).
  split; [apply pollIncompletePredictions_updates; assumption |].
  unfold updated. cbn. rewrite Houtput. repeat split.
  - intros e ->. reflexivity.
  - intros converted ->. reflexivity.
  - intros Hrejects.
    assert (Hread : read_fails env (p_output prediction) = false).
    { destruct (p_output prediction) as [[| | b | n | s] | items | props]; cbn in *;
        try reflexivity.
      destruct (startsWith s "https"); [| reflexivity].
      destruct (fetch_blob env s); [reflexivity | discriminate]. }
    destruct (p_output prediction) as [p | items | props]; try discriminate.
    destruct (convertSingle_completes env (JPrim p) Hread) as (r & Hr & _ & Hrej & _).
    cbn [urlToBase64]. rewrite Hr. apply Hrej, Hrejects.
Qed.

Lemma pollIncompletePredictions_conversion_witness :
  snd (urlToBase64 (succeeded_env (Blob "image/png" None)) (JStr "https://h/a.png"))
    = Throw ReadError /\
  exists o',
    outputs (snd (pollIncompletePredictions (succeeded_env (Blob "image/png" None))
                    tracked_world)) !! 0 = Some (Some o') /\
    o_status o' = JStr "succeeded" /\
    o_output o' = JStr "data:image/png;base64,T0xE".
Proof.
  split; [reflexivity |].
  destruct (pollIncompletePredictions_conversion
              (succeeded_env (Blob "image/png" None)) tracked_world
              (job1 "succeeded" (JStr "https://h/a.png") null) 0
              {| o_id := PStr "output-job1"; o_status := JStr "processing";
                 o_input := example_input;
                 o_output := JStr "data:image/png;base64,T0xE";
                 o_metadata := Some 0 |})
    as (o' & Ho' & _ & _ & Hstatus & _ & Hkept & _).
  - intros [| i] o H; cbn in H; [injection H as <-; reflexivity | discriminate].
  - split; [discriminate |].
    exists (PollObject (job1 "succeeded" (JStr "https://h/a.png") null)).
    split; [reflexivity |]. split; [reflexivity |].
    exists [], []. split; [reflexivity | constructor].
  - reflexivity.
  - reflexivity.
  - reflexivity.
  - exists o'. split; [exact Ho' |]. split; [exact Hstatus |].
    apply (Hkept ReadError). reflexivity.
Defined.

(** C2, as stated, fails: the fetch of the asset rejects, [convertSingle]
    catches the failure and returns the reference, and that reference
    replaces the result the Output had. *)
Lemma pollIncompletePredictions_conversion_counterexample :
  fetch_blob (succeeded_env FetchRejected) "https://h/a.png" = FetchRejected /\
  outputs tracked_world
    = [Some {| o_id := PStr "output-job1"; o_status := JStr "processing";
               o_input := example_input;
               o_output := JStr "data:image/png;base64,T0xE";
               o_metadata := Some 0 |}] /\
  outputs (snd (pollIncompletePredictions (succeeded_env FetchRejected) tracked_world))
    = [Some {| o_id := PStr "output-job1"; o_status := JStr "succeeded";
               o_input := example_input;
               o_output := JStr "https://h/a.png";
               o_metadata := Some 0 |}].
Proof. repeat split. Qed.
(** C4 (the code at the failing input). Two creation calls answered with
    the same id leave two Outputs with the same [id] and the same
    [prediction_id]; when the poll then reports that prediction as succeeded
    with a result, the first Output is written twice -- the second time as a
    copy of the second Output, whose metadata object it now shares -- and
    the second Output is not updated: it is still ['starting'], without a
    result. *)
Theorem pollIncompletePredictions_duplicate_ids :
  map (prediction_id_of (heap duplicate_world)) (outputs duplicate_world)
    = [PStr "job1"; PStr "job1"] /\
  map (fmap o_id) (outputs duplicate_world)
    = [Some (PStr "output-job1"); Some (PStr "output-job1")] /\
  map (fmap o_metadata) (outputs duplicate_world) = [Some (Some 0); Some (Some 1)] /\
  outputs (snd (pollIncompletePredictions (succeeded_env png_blob) duplicate_world))
    = [Some {| o_id := PStr "output-job1"; o_status := JStr "succeeded";
               o_input := example_input;
               o_output := JStr "data:image/png;base64,QUJD";
               o_metadata := Some 1 |};
       Some {| o_id := PStr "output-job1"; o_status := JStr "starting";
               o_input := example_input;
               o_output := null;
               o_metadata := Some 1 |}].
Proof. repeat split. Qed.

(* ================================================================= *)
(** ** [updateOutputPosition] *)

Lemma findIndex_id_found id os i :
  findIndex_id id os = Normal (Some i) ->
  exists o, os !! i = Some (Some o) /\ strict_eq (o_id o) id = true.
Proof.
  revert i. induction os as [| [o |] os IH]; intros i; cbn; try discriminate.
  destruct (strict_eq (o_id o) id) eqn:E.
  - intros [= <-]. eauto.
  - destruct (findIndex_id id os) as [[j |] | e]; try discriminate.
    intros [= <-]. destruct (IH j eq_refl) as (o' & Ho' & Hid). eauto.
Qed.

Lemma assign_metadata_run index f w o l m :
  outputs w !! index = Some (Some o) ->
  o_metadata o = Some l ->
  heap w !! l = Some m ->
  assign_metadata index f w = (Normal tt, set_heap w (<[l := f m]> (heap w))).
Proof.
  intros Ho Hl Hm. unfold assign_metadata. run. rewrite Ho, Hl, Hm. reflexivity.
Qed.

Lemma assign_metadata_throws index f w o :
  outputs w !! index = Some (Some o) ->
  (o_metadata o ≫= fun l => heap w !! l) = None ->
  assign_metadata index f w = (Throw TypeError, w).
Proof.
  intros Ho Hnone. unfold assign_metadata. run. rewrite Ho.
  destruct (o_metadata o) as [l |]; cbn in *; [rewrite Hnone |]; reflexivity.
Qed.

Lemma assign_metadata_again index f g w o l m :
  outputs w !! index = Some (Some o) ->
  o_metadata o = Some l ->
  heap w !! l = Some m ->
  assign_metadata index g (set_heap w (<[l := f m]> (heap w)))
  = (Normal tt, set_heap w (<[l := g (f m)]> (heap w))).
Proof.
  intros Ho Hl Hm.
  rewrite (assign_metadata_run index g _ o l (f m)); try assumption.
  - unfold set_heap. cbn. rewrite list_insert_insert_eq. reflexivity.
  - cbn. apply list_lookup_insert_eq. eapply lookup_lt_Some, Hm.
Qed.

Lemma bind_normal {A B} (m : M A) (k : A -> M B) w a w' :
  m w = (Normal a, w') -> (m ≫= k) w = k a w'.
Proof. intros H. rewrite bind_run, H. reflexivity. Qed.

Lemma bind_throw {A B} (m : M A) (k : A -> M B) w e w' :
  m w = (Throw e, w') -> (m ≫= k) w = (Throw e, w').
Proof. intros H. rewrite bind_run, H. reflexivity. Qed.

(** The frame of [updateOutputPosition]: [outputs], the token and the log
    are untouched; at most one metadata object changes, the one of the first
    entry with the given id, whose [prediction_id] stays and whose placement
    is set as [place] says; when no entry has the id, or the entry has no
    metadata, nothing changes. *)
Lemma updateOutputPosition_frame p w :
  outputs (snd (updateOutputPosition p w)) = outputs w /\
  replicate_api_token (snd (updateOutputPosition p w)) = replicate_api_token w /\
  requests (snd (updateOutputPosition p w)) = requests w /\
  heap (snd (updateOutputPosition p w)) =
    match target p w with
    | Some l =>
        match heap w !! l with
        | Some m => <[l := place p m]> (heap w)
        | None => heap w
        end
    | None => heap w
    end.
Proof.
  unfold updateOutputPosition, target.
  rewrite (bind_normal get_world _ w w w eq_refl).
  destruct (findIndex_id (pos_id p) (outputs w)) as [[index |] | e] eqn:Hfind.
  2:{ rewrite (bind_normal (of_completion (Normal None)) _ w None w eq_refl). cbn. auto. }
  2:{ rewrite (bind_throw (of_completion (Throw e)) _ w e w eq_refl). cbn. auto. }
  rewrite (bind_normal (of_completion (Normal (Some index))) _ w (Some index) w eq_refl).
  destruct (findIndex_id_found _ _ _ Hfind) as (o & Ho & _). rewrite Ho.
  destruct (o_metadata o ≫= fun l => heap w !! l) as [m |] eqn:Hobject.
  2:{ rewrite (bind_throw _ _ w TypeError w (assign_metadata_throws index _ w o Ho Hobject)).
      cbn. destruct (o_metadata o) as [l |]; cbn in *; [rewrite Hobject |]; auto. }
  destruct (o_metadata o) as [l |] eqn:Hl; [cbn in Hobject | discriminate]. rewrite Hobject.
  rewrite (bind_normal _ _ _ _ _ (assign_metadata_run index _ w o l m Ho Hl Hobject)).
  cbv beta.
  rewrite (bind_normal _ _ _ _ _
             (assign_metadata_again index (set_x (pos_x p)) _ w o l m Ho Hl Hobject)).
  cbv beta.
  rewrite (bind_normal _ _ _ _ _
             (assign_metadata_again index (fun m => set_y (pos_y p) (set_x (pos_x p) m)) _
                w o l m Ho Hl Hobject)).
  cbv beta.
  set (f3 := fun m => set_rotation (pos_rotation p) (set_y (pos_y p) (set_x (pos_x p) m))).
  unfold place.
  destruct (is_undefined (pos_width p)); cbn [negb].
  - rewrite (bind_normal (ret tt) _ _ tt _ eq_refl). cbv beta.
    destruct (is_undefined (pos_height p)); cbn [negb].
    + cbn. auto.
    + rewrite (assign_metadata_again index f3 _ w o l m Ho Hl Hobject). cbn. auto.
  - rewrite (bind_normal _ _ _ _ _ (assign_metadata_again index f3 _ w o l m Ho Hl Hobject)).
    cbv beta. destruct (is_undefined (pos_height p)); cbn [negb].
    + cbn. auto.
    + rewrite (assign_metadata_again index (fun m => set_width (pos_width p) (f3 m)) _
                 w o l m Ho Hl Hobject).
      cbn. auto.
Qed.
(** Every entry that does not hold the assigned metadata object reads the
    metadata it read before. *)
Lemma updateOutputPosition_other_outputs p w entry :
  (entry ≫= o_metadata) <> target p w ->
  metadata_of (heap (snd (updateOutputPosition p w))) entry = metadata_of (heap w) entry.
Proof.
  intros Hother. destruct (updateOutputPosition_frame p w) as (_ & _ & _ & ->).
  destruct (target p w) as [l |]; [| reflexivity].
  destruct (heap w !! l) as [m |]; [| reflexivity].
  unfold metadata_of. destruct entry as [o |]; [| reflexivity]. cbn in *.
  destruct (o_metadata o) as [l' |]; [| reflexivity]. cbn.
  apply list_lookup_insert_ne. congruence.
Qed.

(** What the duplicate ids of [duplicate_world] lead to.  In the registry
    that its poll leaves, the two Outputs have the same id and hold the same
    metadata object; [updateOutputPosition] finds the first of them and
    assigns to that object, so both are moved. *)
Example updateOutputPosition_shared_metadata :
  findIndex_id (pos_id moved) (outputs aliased_world) = Normal (Some 0) /\
  map (fmap o_metadata) (outputs aliased_world) = [Some (Some 1); Some (Some 1)] /\
  map (metadata_of (heap aliased_world)) (outputs aliased_world)
    = [Some {| m_prediction_id := PStr "job1"; m_x := JNum 0; m_y := JNum 0;
               m_rotation := JNum 0; m_width := JNum 300; m_height := JNum 225 |};
       Some {| m_prediction_id := PStr "job1"; m_x := JNum 0; m_y := JNum 0;
               m_rotation := JNum 0; m_width := JNum 300; m_height := JNum 225 |}] /\
  map (metadata_of (heap (snd (updateOutputPosition moved aliased_world))))
    (outputs (snd (updateOutputPosition moved aliased_world)))
    = [Some {| m_prediction_id := PStr "job1"; m_x := JNum 10; m_y := JNum 20;
               m_rotation := JNum 0; m_width := JNum 300; m_height := JNum 225 |};
       Some {| m_prediction_id := PStr "job1"; m_x := JNum 10; m_y := JNum 20;
               m_rotation := JNum 0; m_width := JNum 300; m_height := JNum 225 |}].
Proof. repeat split. Qed.
(** In a registry whose ids are distinct, when the poll reports a
    prediction with a result that [urlToBase64] converts, every Output with
    that [prediction_id] -- there may be several -- is replaced, at the place
    it had, by a copy with the status and the input of the prediction and the
    converted result; the registry keeps its length. *)
Theorem pollIncompletePredictions_distinct_ids env w prediction converted i o :
  ids_distinct (outputs (snd (cleanupOutputs w))) ->
  poll_reports env w prediction ->
  truthy (p_output prediction) = true ->
  snd (urlToBase64 env (p_output prediction)) = Normal converted ->
  outputs (snd (cleanupOutputs w)) !! i = Some (Some o) ->
  strict_eq (prediction_id_of (heap w) (Some o)) (p_id prediction) = true ->
  length (outputs (snd (pollIncompletePredictions env w)))
    = length (outputs (snd (cleanupOutputs w))) /\
  outputs (snd (pollIncompletePredictions env w)) !! i =
    Some (Some {| o_id := o_id o;
                  o_status := p_status prediction;
                  o_input := p_input prediction;
                  o_output := converted;
                  o_metadata := o_metadata o |}).
Proof.
  intros Hdistinct Hreports Houtput Hconverted Hi Hmatch. split.
  - destruct Hreports as (Hids & pollResponse & Hpoll & Hok & _).
    destruct (pollIncompletePredictions_reconciles env w pollResponse Hdistinct Hids Hpoll Hok)
      as [_ ->].
    apply length_map.
  - rewrite (pollIncompletePredictions_updates env w prediction i o) by assumption.
    unfold updated. rewrite Houtput, Hconverted. reflexivity.
Qed.

Lemma pollIncompletePredictions_distinct_ids_witness :
  map (prediction_id_of (heap twin_world)) (outputs twin_world) = [PStr "job1"; PStr "job1"] /\
  outputs (snd (pollIncompletePredictions (succeeded_env png_blob) twin_world)) !! 1 =
    Some (Some {| o_id := PStr "output-b"; o_status := JStr "succeeded";
                  o_input := example_input;
                  o_output := JStr "data:image/png;base64,QUJD";
                  o_metadata := Some 1 |}).
Proof.
  split; [reflexivity |].
  apply (pollIncompletePredictions_distinct_ids
           (succeeded_env png_blob) twin_world
           (job1 "succeeded" (JStr "https://h/a.png") null)
           (JStr "data:image/png;base64,QUJD") 1
           {| o_id := PStr "output-b"; o_status := JStr "processing";
              o_input := example_input; o_output := null; o_metadata := Some 1 |}).
  - intros [| [| i]] o H; cbn in H; try discriminate; injection H as <-; reflexivity.
  - split; [discriminate |].
    exists (PollObject (job1 "succeeded" (JStr "https://h/a.png") null)).
    split; [reflexivity |]. split; [reflexivity |].
    exists [], []. split; [reflexivity | constructor].
  - reflexivity.
  - reflexivity.
  - reflexivity.
  - reflexivity.
Defined.

(** [updateOutputPosition] assigns to one metadata object at most.  It
    leaves [outputs] as it is -- the entries, their order, their [id],
    [status], [input], [output] and metadata references -- and the
    [prediction_id] of every metadata object; the object it assigns to is
    the one of the first entry with the given id, and every entry that does
    not hold that object reads the metadata it read before.  When no entry
    has the id, no metadata object changes. *)
Theorem updateOutputPosition_placement_only p w :
  outputs (snd (updateOutputPosition p w)) = outputs w /\
  length (heap (snd (updateOutputPosition p w))) = length (heap w) /\
  (forall l m, heap w !! l = Some m ->
     exists m', heap (snd (updateOutputPosition p w)) !! l = Some m' /\
                m_prediction_id m' = m_prediction_id m /\
                (m' = m \/ (target p w = Some l /\ m' = place p m))) /\
  (forall entry, (entry ≫= o_metadata) <> target p w ->
     metadata_of (heap (snd (updateOutputPosition p w))) entry = metadata_of (heap w) entry) /\
  (findIndex_id (pos_id p) (outputs w) = Normal None ->
     heap (snd (updateOutputPosition p w)) = heap w).
Proof.
  pose proof (updateOutputPosition_frame p w) as (Houts & _ & _ & Hheap).
  split; [exact Houts |]. split; [| split; [| split]].
  - rewrite Hheap. destruct (target p w) as [l |]; [| reflexivity].
    destruct (heap w !! l); [apply length_insert | reflexivity].
  - intros l m Hm. rewrite Hheap.
    destruct (target p w) as [l' |]; [| eauto].
    destruct (heap w !! l') as [m0 |] eqn:Hm0; [| eauto].
    destruct (decide (l' = l)) as [-> | Hne].
    + rewrite Hm in Hm0. injection Hm0 as <-.
      exists (place p m). split; [| split; [reflexivity | auto]].
      apply list_lookup_insert_eq. eapply lookup_lt_Some, Hm.
    + exists m. rewrite list_lookup_insert_ne by exact Hne. auto.
  - apply updateOutputPosition_other_outputs.
  - intros Hnone. rewrite Hheap. unfold target. rewrite Hnone. reflexivity.
Qed.
(* ================================================================= *)
(** ** [removeOutput] *)

Lemma filter_by_id_Some keep os :
  Forall is_Some os ->
  filter_by_id keep os =
  Normal (List.filter (fun e => match e with Some o => keep (o_id o) | None => false end) os).
Proof.
  induction 1 as [| e os [o ->] _ IH]; cbn; [reflexivity |].
  rewrite IH. destruct (keep (o_id o)); reflexivity.
Qed.

Lemma filter_by_id_null keep os : In None os -> filter_by_id keep os = Throw TypeError.
Proof.
  induction os as [| [o |] os IH]; cbn; intros Hin.
  - contradiction.
  - destruct Hin as [H | H]; [discriminate |]. rewrite (IH H). reflexivity.
  - reflexivity.
Qed.

Lemma removeOutput_run arg w kept :
  match arg with
  | ManyIds ids => filter_by_id (fun output_id => negb (includes ids output_id)) (outputs w)
  | OneId id => filter_by_id (fun output_id => negb (strict_eq output_id id)) (outputs w)
  end = Normal kept ->
  removeOutput arg w = (Normal tt, set_outputs w kept).
Proof. intros H. unfold removeOutput. run. rewrite H. reflexivity. Qed.

Lemma findIndex_id_filtered id os :
  findIndex_id id (List.filter (other_id id) os) = Normal None.
Proof.
  induction os as [| [o |] os IH]; cbn.
  - reflexivity.
  - destruct (strict_eq (o_id o) id) eqn:E; cbn; [assumption |].
    rewrite E, IH. reflexivity.
  - assumption.
Qed.

Lemma filter_other_id_absent id os :
  findIndex_id id os = Normal None -> List.filter (other_id id) os = os.
Proof.
  induction os as [| [o |] os IH]; cbn.
  - reflexivity.
  - destruct (strict_eq (o_id o) id); [discriminate |].
    destruct (findIndex_id id os) as [[i |] | e]; try discriminate.
    intros _. cbn. rewrite IH; reflexivity.
  - discriminate.
Qed.

(** In a registry without null entries, [removeOutput(id)] completes and
    keeps, in their order, exactly the entries whose id is not [id]; after
    it no entry has that id, and when no entry had it nothing changes.  The
    metadata objects, the token and the log are untouched. *)
Theorem removeOutput_one id w :
  Forall is_Some (outputs w) ->
  removeOutput (OneId id) w
    = (Normal tt, set_outputs w (List.filter (other_id id) (outputs w))) /\
  findIndex_id id (outputs (snd (removeOutput (OneId id) w))) = Normal None /\
  (findIndex_id id (outputs w) = Normal None ->
   outputs (snd (removeOutput (OneId id) w)) = outputs w).
Proof.
  intros Hsome.
  assert (Hrun : removeOutput (OneId id) w
                 = (Normal tt, set_outputs w (List.filter (other_id id) (outputs w)))).
  { apply removeOutput_run. rewrite filter_by_id_Some by assumption. reflexivity. }
  rewrite Hrun. cbn. split; [reflexivity |]. split.
  - apply findIndex_id_filtered.
  - apply filter_other_id_absent.
Qed.

Lemma removeOutput_one_witness :
  outputs (snd (removeOutput (OneId (PStr "output-a")) twin_world))
  = [Some {| o_id := PStr "output-b"; o_status := JStr "processing";
             o_input := example_input; o_output := null; o_metadata := Some 1 |}].
Proof.
  destruct (removeOutput_one (PStr "output-a") twin_world) as (-> & _).
  - repeat constructor; eexists; reflexivity.
  - reflexivity.
Defined.

(** A null entry makes [removeOutput] throw a [TypeError], with either
    form of argument, and nothing is removed; after [cleanupOutputs] it
    never throws. *)
Theorem removeOutput_null_entry arg w :
  In None (outputs w) ->
  removeOutput arg w = (Throw TypeError, w) /\
  fst (removeOutput arg (snd (cleanupOutputs w))) = Normal tt.
Proof.
  intros Hnull. split.
  - unfold removeOutput. run.
    destruct arg as [id | ids]; rewrite (filter_by_id_null _ _ Hnull); reflexivity.
  - assert (Hsome : Forall is_Some (outputs (snd (cleanupOutputs w)))).
    { cbn. apply List.Forall_forall. intros e He. apply List.filter_In in He as [_ He].
      apply has_prediction_id_spec in He as (o & _ & _ & _ & -> & _). eexists; reflexivity. }
    unfold removeOutput. run.
    destruct arg as [id | ids]; rewrite (filter_by_id_Some _ _ Hsome); reflexivity.
Qed.

Lemma removeOutput_null_entry_witness :
  removeOutput (ManyIds [PStr "output-job1"])
    (set_outputs tracked_world (None :: outputs tracked_world))
  = (Throw TypeError, set_outputs tracked_world (None :: outputs tracked_world)).
Proof.
  apply (removeOutput_null_entry (ManyIds [PStr "output-job1"])
           (set_outputs tracked_world (None :: outputs tracked_world))).
  left. reflexivity.
Defined.

Lemma strict_eq_string_sym s p : strict_eq (PStr s) p = strict_eq p (PStr s).
Proof. destruct p as [| | b | n | t]; cbn; try reflexivity. apply String.eqb_sym. Qed.

Lemma filter_Some_all (os : list (option Output)) :
  Forall is_Some os -> List.filter (keep_many []) os = os.
Proof.
  induction 1 as [| e os [o ->] _ IH]; cbn; [reflexivity |]. rewrite IH. reflexivity.
Qed.

Lemma filter_is_Some (f : option Output -> bool) os :
  Forall is_Some os -> Forall is_Some (List.filter f os).
Proof.
  intros H. apply List.Forall_forall. intros e He. apply List.filter_In in He as [He _].
  rewrite List.Forall_forall in H. apply H, He.
Qed.

Lemma filter_keep_many ss : forall os,
  Forall is_Some os ->
  List.filter (keep_many (map PStr ss)) os
  = fold_left (fun kept s => List.filter (other_id (PStr s)) kept) ss os.
Proof.
  induction ss as [| s ss IH]; intros os Hsome; cbn [fold_left map].
  - apply filter_Some_all, Hsome.
  - rewrite <- IH by (apply filter_is_Some, Hsome).
    clear IH Hsome.
    assert (Hkeep : forall e, keep_many (PStr s :: map PStr ss) e
                              = other_id (PStr s) e && keep_many (map PStr ss) e).
    { intros [o |]; [| reflexivity]. unfold keep_many, other_id, includes. cbn [existsb].
      rewrite negb_orb. f_equal. f_equal.
      destruct (o_id o) as [| | b | n | t]; cbn; try reflexivity. apply String.eqb_sym. }
    induction os as [| e os IHos]; [reflexivity |].
    cbn [List.filter]. rewrite Hkeep, IHos.
    destruct (other_id (PStr s) e); cbn [andb List.filter]; reflexivity.
Qed.

Lemma removeOutput_sequence ss : forall w,
  Forall is_Some (outputs w) ->
  for_of ss (fun s => removeOutput (OneId (PStr s))) w
  = (Normal tt,
     set_outputs w (fold_left (fun kept s => List.filter (other_id (PStr s)) kept) ss (outputs w))).
Proof.
  induction ss as [| s ss IH]; intros w Hsome.
  - destruct w. reflexivity.
  - rewrite for_of_cons.
    rewrite (removeOutput_run (OneId (PStr s)) w (List.filter (other_id (PStr s)) (outputs w)))
      by (rewrite filter_by_id_Some by assumption; reflexivity).
    rewrite IH by (apply filter_is_Some, Hsome). reflexivity.
Qed.

(** [removeOutput] with an array of string ids does what removing the ids
    one after the other does, in a registry without null entries: the
    entries with any of the ids are gone, the others stay in their order. *)
Theorem removeOutput_many ss w :
  Forall is_Some (outputs w) ->
  removeOutput (ManyIds (map PStr ss)) w
    = for_of ss (fun s => removeOutput (OneId (PStr s))) w /\
  outputs (snd (removeOutput (ManyIds (map PStr ss)) w))
    = List.filter (keep_many (map PStr ss)) (outputs w).
Proof.
  intros Hsome.
  assert (Hrun : removeOutput (ManyIds (map PStr ss)) w
                 = (Normal tt, set_outputs w (List.filter (keep_many (map PStr ss)) (outputs w)))).
  { apply removeOutput_run. rewrite filter_by_id_Some by assumption. reflexivity. }
  rewrite Hrun, removeOutput_sequence, filter_keep_many by assumption. split; reflexivity.
Qed.

Lemma removeOutput_many_witness :
  Forall is_Some (outputs twin_world) /\
  outputs (snd (for_of ["output-b"; "output-a"] (fun s => removeOutput (OneId (PStr s)))
                  twin_world)) = [].
Proof.
  assert (H : Forall is_Some (outputs twin_world))
    by (repeat constructor; eexists; reflexivity).
  split; [exact H |].
  destruct (removeOutput_many ["output-b"; "output-a"] twin_world H) as [<- _].
  reflexivity.
Defined.

(* ================================================================= *)
(** ** [createPrediction], further *)

Lemma createPrediction_run env input w :
  createPrediction env input w =
  let w1 := add_requests w [ReqCreate (replicate_api_token w) input] in
  match post_prediction env (replicate_api_token w) input with
  | Normal (Some prediction) =>
      if truthy (p_error prediction) then (Normal None, w1)
      else match get_prop input "aspect_ratio" with
           | Normal (JPrim (PStr a)) =>
               (Normal (Some prediction),
                {| replicate_api_token := replicate_api_token w;
                   outputs := outputs w ++ [Some (created_output env w prediction)];
                   heap := heap w ++ [created_metadata env prediction a];
                   requests := requests w ++ [ReqCreate (replicate_api_token w) input] |})
           | _ => (Normal None, w1)
           end
  | _ => (Normal None, w1)
  end.
Proof.
  unfold createPrediction. run.
  destruct (post_prediction env (replicate_api_token w) input) as [[p |] | e]; cbn;
    try reflexivity.
  destruct (truthy (p_error p)); [reflexivity |]. run.
  destruct (get_prop input "aspect_ratio") as [[[| | b | n | a] | items | props] | e]; cbn;
    reflexivity.
Qed.

(** Whatever the network answers, [createPrediction] completes without
    throwing, issues exactly one request -- the creation call, with the
    stored token and the input -- and touches nothing that was there: the
    entries and the metadata objects stay, in their order, and at most one
    entry with one metadata object is appended. *)
Theorem createPrediction_appends env input w :
  exists result new_entries new_objects,
    createPrediction env input w =
    (Normal result,
     {| replicate_api_token := replicate_api_token w;
        outputs := outputs w ++ new_entries;
        heap := heap w ++ new_objects;
        requests := requests w ++ [ReqCreate (replicate_api_token w) input] |}) /\
    length new_entries <= 1 /\ length new_objects = length new_entries /\
    (result = None <-> new_entries = []).
Proof.
  rewrite createPrediction_run. cbn zeta.
  assert (Hnone : exists result new_entries new_objects,
             (@Normal (option Prediction) None,
              add_requests w [ReqCreate (replicate_api_token w) input]) =
             (Normal result,
              {| replicate_api_token := replicate_api_token w;
                 outputs := outputs w ++ new_entries;
                 heap := heap w ++ new_objects;
                 requests := requests w ++ [ReqCreate (replicate_api_token w) input] |}) /\
             length new_entries <= 1 /\ length new_objects = length new_entries /\
             (result = None <-> new_entries = [])).
  { exists None, [], []. unfold add_requests. rewrite !app_nil_r. cbn. repeat split; auto. }
  destruct (post_prediction env (replicate_api_token w) input) as [[p |] | e]; try exact Hnone.
  destruct (truthy (p_error p)); [exact Hnone |].
  destruct (get_prop input "aspect_ratio") as [[[| | b | n | a] | items | props] | e];
    try exact Hnone.
  exists (Some p), [Some (created_output env w p)], [created_metadata env p a].
  cbn. repeat split; auto; discriminate.
Qed.

Lemma createPrediction_created env input w prediction a :
  post_prediction env (replicate_api_token w) input = Normal (Some prediction) ->
  truthy (p_error prediction) = false ->
  get_prop input "aspect_ratio" = Normal (JStr a) ->
  createPrediction env input w =
    (Normal (Some prediction),
     {| replicate_api_token := replicate_api_token w;
        outputs := outputs w ++ [Some (created_output env w prediction)];
        heap := heap w ++ [created_metadata env prediction a];
        requests := requests w ++ [ReqCreate (replicate_api_token w) input] |}).
Proof.
  intros Hpost Herror Haspect.
  rewrite createPrediction_run. cbn zeta. rewrite Hpost, Herror, Haspect. reflexivity.
Qed.

(** A successful creation call -- a response whose [error] is not set, for
    an input whose [aspect_ratio] is a string -- returns the response and
    appends one Output: its id is ["output-"] followed by the id of the
    prediction, its status and input are those of the response, it has no
    result, and its metadata holds the id of the prediction, the origin as
    position, no rotation, and the size computed from the aspect ratio. *)
Theorem createPrediction_success env input w prediction a :
  post_prediction env (replicate_api_token w) input = Normal (Some prediction) ->
  truthy (p_error prediction) = false ->
  get_prop input "aspect_ratio" = Normal (JStr a) ->
  createPrediction env input w =
    (Normal (Some prediction),
     {| replicate_api_token := replicate_api_token w;
        outputs := outputs w ++ [Some (created_output env w prediction)];
        heap := heap w ++ [created_metadata env prediction a];
        requests := requests w ++ [ReqCreate (replicate_api_token w) input] |}) /\
  metadata_of (heap (snd (createPrediction env input w)))
    (Some (created_output env w prediction))
    = Some (created_metadata env prediction a).
Proof.
  intros Hpost Herror Haspect.
  rewrite (createPrediction_created env input w prediction a Hpost Herror Haspect).
  split; [reflexivity |].
  unfold metadata_of. cbn. rewrite lookup_app_r by lia. rewrite Nat.sub_diag. reflexivity.
Qed.

Lemma createPrediction_success_witness :
  outputs (snd (createPrediction (succeeded_env png_blob) example_input empty_world))
  = [Some {| o_id := PStr "output-job1"; o_status := JStr "starting";
             o_input := example_input; o_output := null; o_metadata := Some 0 |}].
Proof.
  destruct (createPrediction_success (succeeded_env png_blob) example_input empty_world
              (job1 "starting" null null) "4:3" eq_refl eq_refl eq_refl) as [-> _].
  reflexivity.
Defined.

(** A creation call that succeeds for an input without a string
    [aspect_ratio] leaves no trace in the store: the request has been issued
    and answered, but reading the aspect ratio throws, no Output is appended
    and nothing is returned. *)
Theorem createPrediction_no_aspect_ratio env input w prediction :
  post_prediction env (replicate_api_token w) input = Normal (Some prediction) ->
  truthy (p_error prediction) = false ->
  no_aspect_ratio input ->
  createPrediction env input w
    = (Normal None, add_requests w [ReqCreate (replicate_api_token w) input]).
Proof.
  intros Hpost Herror Haspect. unfold no_aspect_ratio in Haspect.
  rewrite createPrediction_run. cbn zeta. rewrite Hpost, Herror.
  destruct (get_prop input "aspect_ratio") as [[[| | b | n | a] | items | props] | e];
    try reflexivity.
  contradiction.
Qed.

Lemma createPrediction_no_aspect_ratio_witness :
  no_aspect_ratio (JObj [("prompt", JStr "a cat")]) /\
  outputs (snd (createPrediction (succeeded_env png_blob) (JObj [("prompt", JStr "a cat")])
                  empty_world)) = [].
Proof.
  split; [exact I |].
  rewrite (createPrediction_no_aspect_ratio (succeeded_env png_blob)
             (JObj [("prompt", JStr "a cat")]) empty_world (job1 "starting" null null)
             eq_refl eq_refl I).
  reflexivity.
Defined.

(** Creating an Output and removing it by its id gives back the registry
    there was, when that registry has no null entry and no entry with the
    id. *)
Theorem createPrediction_removeOutput env input w prediction a :
  post_prediction env (replicate_api_token w) input = Normal (Some prediction) ->
  truthy (p_error prediction) = false ->
  get_prop input "aspect_ratio" = Normal (JStr a) ->
  Forall is_Some (outputs w) ->
  findIndex_id (PStr ("output-" ++ to_string env (p_id prediction))) (outputs w) = Normal None ->
  fst (removeOutput (OneId (PStr ("output-" ++ to_string env (p_id prediction))))
         (snd (createPrediction env input w))) = Normal tt /\
  outputs (snd (removeOutput (OneId (PStr ("output-" ++ to_string env (p_id prediction))))
                  (snd (createPrediction env input w)))) = outputs w.
Proof.
  intros Hpost Herror Haspect Hsome Habsent.
  rewrite (createPrediction_created env input w prediction a Hpost Herror Haspect). cbn [snd].
  set (id := PStr ("output-" ++ to_string env (p_id prediction))) in *.
  rewrite (removeOutput_run (OneId id) _ (outputs w)); [split; reflexivity |].
  cbn [outputs]. rewrite filter_by_id_Some.
  - f_equal. rewrite List.filter_app. cbn. rewrite String.eqb_refl. cbn.
    rewrite app_nil_r. apply (filter_other_id_absent id (outputs w) Habsent).
  - apply Forall_app. split; [exact Hsome |]. repeat constructor. eexists; reflexivity.
Qed.

Lemma createPrediction_removeOutput_witness :
  outputs (snd (removeOutput (OneId (PStr "output-job1"))
                  (snd (createPrediction (succeeded_env png_blob) example_input twin_world))))
  = outputs twin_world.
Proof.
  apply (createPrediction_removeOutput (succeeded_env png_blob) example_input twin_world
           (job1 "starting" null null) "4:3" eq_refl eq_refl eq_refl).
  - repeat constructor; eexists; reflexivity.
  - reflexivity.
Defined.

(* ================================================================= *)
(** ** [cleanupOutputs], further *)

Lemma filter_sublist {A} (f : A -> bool) (l : list A) : sublist (List.filter f l) l.
Proof.
  induction l as [| a l IH]; cbn; [constructor |].
  destruct (f a); [apply sublist_skip | apply sublist_cons]; exact IH.
Qed.

Lemma filter_filter_id {A} (f : A -> bool) (l : list A) :
  List.filter f (List.filter f l) = List.filter f l.
Proof.
  induction l as [| a l IH]; cbn; [reflexivity |].
  destruct (f a) eqn:E; cbn; [rewrite E, IH |]; auto.
Qed.

(** [cleanupOutputs] only drops entries: what it leaves is a subsequence
    of the registry, in the same order, that holds every entry with a
    non-empty [prediction_id]; running it a second time changes nothing. *)
Theorem cleanupOutputs_idempotent w :
  cleanupOutputs (snd (cleanupOutputs w)) = cleanupOutputs w /\
  sublist (outputs (snd (cleanupOutputs w))) (outputs w) /\
  (forall entry, In entry (outputs w) -> has_prediction_id (heap w) entry = true ->
                 In entry (outputs (snd (cleanupOutputs w)))).
Proof.
  rewrite !cleanupOutputs_run. cbn. split; [| split].
  - unfold set_outputs. cbn. rewrite filter_filter_id. reflexivity.
  - apply filter_sublist.
  - intros entry Hin Hvalid. apply List.filter_In. auto.
Qed.

(* ================================================================= *)
(** ** [pollIncompletePredictions], further *)

Lemma for_of_invariant {A} (P : World -> Prop) (body : A -> M unit) (l : list A) :
  (forall a w, In a l -> P w -> P (snd (body a w))) ->
  forall w, P w -> P (snd (for_of l body w)).
Proof.
  induction l as [| a l IH]; intros Hbody w Hw; [exact Hw |].
  rewrite for_of_cons.
  pose proof (Hbody a w (or_introl eq_refl) Hw) as Ha.
  destruct (body a w) as [[[] | e] w']; cbn in *; [| exact Ha].
  apply IH; [| exact Ha]. intros a' w'' Hin. apply Hbody. right. exact Hin.
Qed.

(** Every entry has a non-empty [prediction_id], with the metadata
    objects [h]. *)
Definition all_tracked (h : list Metadata) (w : World) : Prop :=
  heap w = h /\ Forall (fun entry => has_prediction_id h entry = true) (outputs w).

Lemma update_output_tracked env prediction o h w :
  has_prediction_id h (Some o) = true ->
  all_tracked h w ->
  all_tracked h (snd (update_output env prediction o w)).
Proof.
  intros Ho [Hheap Hall].
  destruct (findIndex_id (o_id o) (outputs w)) as [[i |] | e] eqn:Hfind.
  - destruct (update_output_run env prediction o w i Hfind) as [reqs ->]. cbn.
    split; [exact Hheap |]. apply Forall_insert; [exact Hall | exact Ho].
  - unfold update_output. run. rewrite Hfind. cbn. split; assumption.
  - unfold update_output. run. rewrite Hfind. cbn. split; assumption.
Qed.

Lemma reconcile_tracked env prediction h w :
  all_tracked h w -> all_tracked h (snd (reconcile env prediction w)).
Proof.
  intros Hw. destruct prediction as [p |]; cbn; [| exact Hw].
  destruct (truthy_prim (p_id p)); cbn; [| exact Hw].
  run. apply for_of_invariant; [| exact Hw].
  intros [o |] w' Hin Hw'; [| exact Hw'].
  apply update_output_tracked; [| exact Hw'].
  apply List.filter_In in Hin as [Hin _].
  destruct Hw as [Hheap Hall]. rewrite List.Forall_forall in Hall.
  apply Hall, Hin.
Qed.

(** The frame of the poll, whatever the network answers: the metadata
    objects and the token are as they were, the registry has the length the
    cleanup left, and every entry has a non-empty [prediction_id]. *)
Lemma pollIncompletePredictions_tracked env w :
  heap (snd (pollIncompletePredictions env w)) = heap w /\
  replicate_api_token (snd (pollIncompletePredictions env w)) = replicate_api_token w /\
  length (outputs (snd (pollIncompletePredictions env w)))
    = length (outputs (snd (cleanupOutputs w))) /\
  Forall (fun entry => has_prediction_id (heap w) entry = true)
    (outputs (snd (pollIncompletePredictions env w))).
Proof.
  rewrite pollIncompletePredictions_run. cbn zeta. cbn [snd].
  assert (Hclean : all_tracked (heap w) (snd (cleanupOutputs w))).
  { rewrite cleanupOutputs_run. split; [reflexivity |]. apply List.Forall_forall.
    intros e He. apply List.filter_In in He as [_ He]. exact He. }
  assert (Htoken : replicate_api_token (snd (cleanupOutputs w)) = replicate_api_token w)
    by (rewrite cleanupOutputs_run; reflexivity).
  set (w1 := snd (cleanupOutputs w)) in *.
  destruct Hclean as [Hheap Hall].
  destruct (Nat.eqb _ 0); [auto |].
  set (w2 := add_requests w1 _).
  assert (Hw2 : heap w2 = heap w /\ replicate_api_token w2 = replicate_api_token w /\
                length (outputs w2) = length (outputs w1) /\
                Forall (fun entry => has_prediction_id (heap w) entry = true) (outputs w2))
    by (subst w2; cbn; auto).
  destruct (get_predictions env _ _) as [pollResponse | e]; [| exact Hw2].
  destruct (poll_failed pollResponse); [exact Hw2 |].
  destruct Hw2 as (Hheap2 & Htoken2 & Hlen2 & Hall2).
  pose proof (for_of_extends (reconcile env) (predictionsToProcess pollResponse)
                (reconcile_extends env) w2) as (Ht & Hh & Hl & _).
  assert (Hinv : all_tracked (heap w)
                   (snd (for_of (predictionsToProcess pollResponse) (reconcile env) w2))).
  { apply for_of_invariant; [| split; assumption].
    intros a w' _. apply reconcile_tracked. }
  destruct Hinv as [_ Hinv].
  repeat split; congruence.
Qed.

Lemma filter_nil_Forall {A} (f : A -> bool) (l : list A) :
  Forall (fun a => f a = false) l -> List.filter f l = [].
Proof.
  induction 1 as [| a l Ha _ IH]; cbn; [reflexivity |]. rewrite Ha. exact IH.
Qed.

Lemma reconcile_no_match env prediction w :
  Forall (fun entry => unreported (heap w) [prediction] entry) (outputs w) ->
  reconcile env prediction w = (Normal tt, w).
Proof.
  intros Hnone. destruct prediction as [p |]; [| reflexivity]. cbn.
  destruct (truthy_prim (p_id p)) eqn:Htruthy; [| reflexivity]. cbn. run.
  rewrite filter_nil_Forall; [reflexivity |].
  eapply Forall_impl; [exact Hnone |]. cbn. intros entry Hentry.
  apply Forall_inv in Hentry. unfold applies in Hentry. rewrite Htruthy in Hentry.
  exact Hentry.
Qed.

Lemma reconcile_all_no_match env predictions w :
  Forall (unreported (heap w) predictions) (outputs w) ->
  for_of predictions (reconcile env) w = (Normal tt, w).
Proof.
  induction predictions as [| p predictions IH]; intros Hnone; [reflexivity |].
  rewrite for_of_cons, reconcile_no_match.
  - apply IH. eapply Forall_impl; [exact Hnone |]. cbn. intros entry Hentry.
    exact (Forall_inv_tail Hentry).
  - eapply Forall_impl; [exact Hnone |]. cbn. intros entry Hentry.
    constructor; [exact (Forall_inv Hentry) | constructor].
Qed.

Lemma pollIncompletePredictions_reported env w :
  let w1 := snd (cleanupOutputs w) in
  let ids := prediction_ids w1 in
  snd (pollIncompletePredictions env w) =
    if Nat.eqb (length ids) 0 then w1
    else snd (for_of (reported env w) (reconcile env)
                (add_requests w1 [ReqPoll ids (replicate_api_token w)])).
Proof.
  rewrite pollIncompletePredictions_run. cbn zeta. cbn [snd]. unfold reported.
  destruct (Nat.eqb _ 0); [reflexivity |].
  destruct (get_predictions env _ _) as [pollResponse | e]; [| reflexivity].
  destruct (poll_failed pollResponse); reflexivity.
Qed.

(** A poll whose answer is about no entry of the registry -- about
    predictions that have no Output any more, or items without an id --
    leaves the registry as the cleanup made it and fetches no asset; the
    ids of the registry need not be distinct. *)
Theorem pollIncompletePredictions_no_match env w :
  Forall (unreported (heap w) (reported env w)) (outputs (snd (cleanupOutputs w))) ->
  outputs (snd (pollIncompletePredictions env w)) = outputs (snd (cleanupOutputs w)) /\
  heap (snd (pollIncompletePredictions env w)) = heap w /\
  Forall (fun r => is_asset_request r -> In r (requests w))
    (requests (snd (pollIncompletePredictions env w))).
Proof.
  intros Hnone. rewrite pollIncompletePredictions_reported. cbn zeta.
  assert (Hold : forall extra, Forall (fun r => ~ is_asset_request r) extra ->
            Forall (fun r => is_asset_request r -> In r (requests w)) (requests w ++ extra)%list).
  { intros extra Hextra. apply Forall_app. split.
    - apply List.Forall_forall. auto.
    - eapply Forall_impl; [exact Hextra |]. cbn. tauto. }
  destruct (Nat.eqb _ 0).
  - rewrite cleanupOutputs_run. cbn. repeat split.
    apply List.Forall_forall. auto.
  - rewrite reconcile_all_no_match.
    + rewrite cleanupOutputs_run. cbn. repeat split. apply Hold.
      constructor; [cbn; tauto | constructor].
    + rewrite cleanupOutputs_run in *. exact Hnone.
Qed.

Lemma pollIncompletePredictions_no_match_witness :
  outputs (snd (pollIncompletePredictions unrelated_env stale_world))
  = outputs (snd (cleanupOutputs stale_world)).
Proof.
  apply (pollIncompletePredictions_no_match unrelated_env stale_world).
  vm_compute. repeat constructor.
Defined.

Lemma fold_apply_unreported env h predictions entry :
  unreported h predictions entry ->
  fold_left (apply_prediction env h) predictions entry = entry.
Proof.
  induction 1 as [| q others Hq _ IH]; [reflexivity |].
  cbn [fold_left]. replace (apply_prediction env h entry q) with entry; [exact IH |].
  destruct q as [q |], entry as [o |]; try reflexivity. cbn. rewrite Hq. reflexivity.
Qed.

Lemma pollIncompletePredictions_map env w :
  ids_distinct (outputs (snd (cleanupOutputs w))) ->
  heap (snd (pollIncompletePredictions env w)) = heap w /\
  outputs (snd (pollIncompletePredictions env w)) =
    map (fun e => fold_left (apply_prediction env (heap w)) (reported env w) e)
      (outputs (snd (cleanupOutputs w))).
Proof.
  intros Hdistinct. rewrite pollIncompletePredictions_reported. cbn zeta.
  assert (Hid : outputs (snd (cleanupOutputs w)) =
                map (fun e => fold_left (apply_prediction env (heap w)) [] e)
                  (outputs (snd (cleanupOutputs w)))) by (cbn; rewrite map_id; reflexivity).
  destruct (Nat.eqb _ 0) eqn:Hids.
  - split; [rewrite cleanupOutputs_run; reflexivity |].
    unfold reported. rewrite Hids. exact Hid.
  - match goal with |- context [for_of _ _ ?w2] =>
      destruct (reconcile_all env (heap w) (reported env w) w2) as (_ & Hh & _ & Houts)
    end; [rewrite cleanupOutputs_run; reflexivity | exact Hdistinct |].
    split; [exact Hh | exact Houts].
Qed.

(** In a registry whose ids are distinct, a poll changes only the Outputs
    it has an answer about: an entry that no item of the answer reports is,
    after the poll, the entry it was, at the place the cleanup gave it. *)
Theorem pollIncompletePredictions_unreported env w i entry :
  ids_distinct (outputs (snd (cleanupOutputs w))) ->
  outputs (snd (cleanupOutputs w)) !! i = Some entry ->
  unreported (heap w) (reported env w) entry ->
  outputs (snd (pollIncompletePredictions env w)) !! i = Some entry.
Proof.
  intros Hdistinct Hi Hnone.
  destruct (pollIncompletePredictions_map env w Hdistinct) as [_ ->].
  rewrite list_lookup_fmap, Hi. cbn. f_equal.
  apply fold_apply_unreported, Hnone.
Qed.

Lemma pollIncompletePredictions_unreported_witness :
  outputs (snd (pollIncompletePredictions unrelated_env twin_world)) !! 1 =
    Some (Some {| o_id := PStr "output-b"; o_status := JStr "processing";
                  o_input := example_input; o_output := null; o_metadata := Some 1 |}).
Proof.
  apply (pollIncompletePredictions_unreported unrelated_env twin_world 1).
  - intros [| [| i]] o H; cbn in H; try discriminate; injection H as <-; reflexivity.
  - reflexivity.
  - vm_compute. repeat constructor.
Defined.

Lemma pollIncompletePredictions_requests env w :
  let ids := prediction_ids (snd (cleanupOutputs w)) in
  exists assets,
    Forall is_asset_request assets /\
    requests (snd (pollIncompletePredictions env w)) =
      (requests w ++
         if Nat.eqb (length ids) 0 then []
         else ReqPoll ids (replicate_api_token w) :: assets)%list.
Proof.
  cbn zeta. rewrite pollIncompletePredictions_reported. cbn zeta.
  destruct (Nat.eqb _ 0).
  - exists []. split; [constructor |]. rewrite cleanupOutputs_run, app_nil_r. reflexivity.
  - match goal with |- context [for_of ?l ?b ?w2] =>
      destruct (for_of_extends b l (reconcile_extends env) w2)
        as (_ & _ & _ & assets & Hassets & ->)
    end.
    exists assets. split; [exact Hassets |].
    rewrite cleanupOutputs_run. cbn. rewrite <- app_assoc. reflexivity.
Qed.




(* ================================================================= *)
(** ** [createPrediction], then [pollIncompletePredictions] *)

(** A created prediction is followed: after a successful creation call
    that was answered with a non-empty string id and a status that is not
    over, the next poll asks, in its one poll request and with the stored
    token, about that id. *)
Theorem createPrediction_then_poll env env' input w prediction a s :
  post_prediction env (replicate_api_token w) input = Normal (Some prediction) ->
  truthy (p_error prediction) = false ->
  get_prop input "aspect_ratio" = Normal (JStr a) ->
  p_id prediction = PStr s -> s <> "" ->
  terminal (p_status prediction) = false ->
  exists ids assets,
    In (PStr s) ids /\
    Forall is_asset_request assets /\
    requests (snd (pollIncompletePredictions env' (snd (createPrediction env input w)))) =
      (requests w ++ ReqCreate (replicate_api_token w) input
         :: ReqPoll ids (replicate_api_token w) :: assets)%list.
Proof.
  intros Hpost Herror Haspect Hid Hne Hstatus.
  destruct (pollIncompletePredictions_requests env' (snd (createPrediction env input w)))
    as (assets & Hassets & Hreq).
  rewrite Hreq. clear Hreq.
  assert (Hpollable : pollable (snd (createPrediction env input w)) (PStr s)).
  { rewrite (createPrediction_created env input w prediction a Hpost Herror Haspect). cbn.
    exists (created_output env w prediction), (created_metadata env prediction a), s.
    apply orb_false_iff in Hstatus as [Hsucceeded Hfailed].
    repeat split; try assumption.
    - apply in_or_app. right. left. reflexivity.
    - unfold metadata_of. cbn. rewrite lookup_app_r by lia. rewrite Nat.sub_diag. reflexivity. }
  apply prediction_ids_spec in Hpollable.
  set (ids := prediction_ids _) in *.
  exists ids, assets. split; [exact Hpollable |]. split; [exact Hassets |].
  destruct ids as [| p ids']; [destruct Hpollable |]. cbn [length Nat.eqb].
  rewrite (createPrediction_created env input w prediction a Hpost Herror Haspect). cbn.
  rewrite <- app_assoc. reflexivity.
Qed.

Lemma createPrediction_then_poll_witness :
  exists ids assets,
    In (PStr "job1") ids /\
    Forall is_asset_request assets /\
    requests (snd (pollIncompletePredictions (succeeded_env png_blob)
                     (snd (createPrediction (succeeded_env png_blob) example_input
                             empty_world)))) =
    ([] ++ ReqCreate (PStr "r8_token") example_input
       :: ReqPoll ids (PStr "r8_token") :: assets)%list.
Proof.
  apply (createPrediction_then_poll (succeeded_env png_blob) (succeeded_env png_blob)
           example_input empty_world (job1 "starting" null null) "4:3" "job1");
    try reflexivity.
  discriminate.
Defined.

Lemma has_prediction_id_allocated h m entry :
  truthy_prim (m_prediction_id m) && length_gt_0 (m_prediction_id m) = false ->
  has_prediction_id (h ++ [m])%list entry = has_prediction_id h entry.
Proof.
  intros Hm. unfold has_prediction_id.
  destruct entry as [[id status input output [l |]] |]; try reflexivity.
  change (metadata_of (h ++ [m])%list _) with ((h ++ [m])%list !! l).
  change (metadata_of h _) with (h !! l).
  destruct (decide (l < length h)) as [Hl | Hl].
  - rewrite lookup_app_l by exact Hl. reflexivity.
  - rewrite lookup_app_r by lia.
    replace (h !! l) with (@None Metadata) by (symmetry; apply lookup_ge_None_2; lia).
    destruct (l - length h) as [| n]; cbn; [exact Hm | reflexivity].
Qed.

(** A creation call that is answered with an id that is undefined, null,
    the empty string, a number or a boolean still returns the response and
    appends an Output, but that Output does not pass the test of
    [cleanupOutputs]: the next cleanup, with which every poll starts, drops
    it, and the registry is then what the cleanup would have made of it
    before the creation. *)
Theorem createPrediction_without_id env input w prediction a :
  post_prediction env (replicate_api_token w) input = Normal (Some prediction) ->
  truthy (p_error prediction) = false ->
  get_prop input "aspect_ratio" = Normal (JStr a) ->
  truthy_prim (p_id prediction) && length_gt_0 (p_id prediction) = false ->
  fst (createPrediction env input w) = Normal (Some prediction) /\
  length (outputs (snd (createPrediction env input w))) = S (length (outputs w)) /\
  outputs (snd (cleanupOutputs (snd (createPrediction env input w))))
    = outputs (snd (cleanupOutputs w)).
Proof.
  intros Hpost Herror Haspect Hid.
  rewrite (createPrediction_created env input w prediction a Hpost Herror Haspect).
  rewrite !cleanupOutputs_run. cbn.
  split; [reflexivity |]. split; [rewrite length_app; cbn; lia |].
  rewrite List.filter_app. cbn [List.filter].
  rewrite (has_prediction_id_allocated (heap w) (created_metadata env prediction a)
             (Some (created_output env w prediction)) Hid).
  replace (has_prediction_id (heap w) (Some (created_output env w prediction))) with false.
  - rewrite app_nil_r. apply List.filter_ext. intros entry.
    apply has_prediction_id_allocated. exact Hid.
  - unfold has_prediction_id, metadata_of. cbn.
    rewrite (lookup_ge_None_2 (heap w)) by lia. reflexivity.
Qed.

Lemma createPrediction_without_id_witness :
  outputs (snd (cleanupOutputs (snd (createPrediction idless_env example_input stale_world))))
  = outputs (snd (cleanupOutputs stale_world)).
Proof.
  apply (createPrediction_without_id idless_env example_input stale_world
           {| p_id := PUndefined; p_status := JStr "starting"; p_input := example_input;
              p_output := null; p_error := null |} "4:3");
    reflexivity.
Defined.

(* ================================================================= *)
(** ** What a poll keeps of every entry *)

Lemma fold_apply_id_metadata env h predictions entry :
  fmap o_id (fold_left (apply_prediction env h) predictions entry) = fmap o_id entry /\
  (fold_left (apply_prediction env h) predictions entry ≫= o_metadata) = (entry ≫= o_metadata).
Proof.
  revert entry. induction predictions as [| q qs IH]; intros entry; [split; reflexivity |].
  cbn [fold_left]. destruct (IH (apply_prediction env h entry q)) as [-> ->].
  destruct q as [q |], entry as [o |]; cbn; try (split; reflexivity).
  destruct (applies h q (Some o)); split; reflexivity.
Qed.

(** In a registry whose ids are distinct, a poll, whatever it is answered,
    leaves every entry its id and its metadata object, at the place the
    cleanup gave it; so the ids are still distinct after the poll, and no
    two entries come to hold the same metadata object. *)
Theorem pollIncompletePredictions_preserves_ids env w :
  ids_distinct (outputs (snd (cleanupOutputs w))) ->
  map (fmap o_id) (outputs (snd (pollIncompletePredictions env w)))
    = map (fmap o_id) (outputs (snd (cleanupOutputs w))) /\
  map (fun entry => entry ≫= o_metadata) (outputs (snd (pollIncompletePredictions env w)))
    = map (fun entry => entry ≫= o_metadata) (outputs (snd (cleanupOutputs w))) /\
  ids_distinct (outputs (snd (pollIncompletePredictions env w))) /\
  ids_distinct (outputs (snd (cleanupOutputs (snd (pollIncompletePredictions env w))))).
Proof.
  intros Hdistinct.
  destruct (pollIncompletePredictions_map env w Hdistinct) as [_ Houts].
  assert (Hids : map (fmap o_id) (outputs (snd (pollIncompletePredictions env w)))
                 = map (fmap o_id) (outputs (snd (cleanupOutputs w)))).
  { rewrite Houts, map_map. apply map_ext. intros entry.
    apply fold_apply_id_metadata. }
  assert (Hafter : ids_distinct (outputs (snd (pollIncompletePredictions env w)))).
  { eapply ids_distinct_ext; [| exact Hdistinct]. symmetry. exact Hids. }
  split; [exact Hids |]. split; [| split; [exact Hafter |]].
  - rewrite Houts, map_map. apply map_ext. intros entry.
    apply fold_apply_id_metadata.
  - rewrite cleanupOutputs_run. cbn [snd outputs set_outputs].
    rewrite List.forallb_filter_id; [exact Hafter |].
    destruct (pollIncompletePredictions_tracked env w) as (Hheap & _ & _ & Hall).
    rewrite Hheap. apply forallb_forall. rewrite List.Forall_forall in Hall. exact Hall.
Qed.

Lemma pollIncompletePredictions_preserves_ids_witness :
  ids_distinct (outputs (snd (pollIncompletePredictions (succeeded_env png_blob) twin_world))).
Proof.
  apply (pollIncompletePredictions_preserves_ids (succeeded_env png_blob) twin_world).
  intros [| [| i]] o H; cbn in H; try discriminate; injection H as <-; reflexivity.
Defined.

(* ================================================================= *)
(** ** [urlToBase64], further *)

Lemma convertSingle_local env v r :
  snd (convertSingle env v) = Normal r ->
  fetch_rejects env v = false ->
  is_remote r = false.
Proof.
  destruct v as [[| | b | n | s] | items | props]; cbn;
    try (intros [= <-] _; reflexivity).
  destruct (startsWith s "https") eqn:Hremote; cbn.
  - destruct (fetch_blob env s) as [| ty [res |]]; cbn; try discriminate.
    intros [= <-] _. reflexivity.
  - intros [= <-] _. cbn. exact Hremote.
Qed.

Lemma Promise_all_local env items vs :
  Promise_all (map snd (map (convertSingle env) items)) = Normal vs ->
  forallb (fun item => negb (fetch_rejects env item)) items = true ->
  existsb is_remote vs = false.
Proof.
  revert vs. induction items as [| v items IH]; cbn; intros vs Hvs Hitems.
  - injection Hvs as <-. reflexivity.
  - apply andb_true_iff in Hitems as [Hv Hitems]. apply negb_true_iff in Hv.
    destruct (snd (convertSingle env v)) as [r |] eqn:Hr; [| discriminate].
    destruct (Promise_all (map snd (map (convertSingle env) items))) as [rs |];
      [| discriminate].
    injection Hvs as <-. cbn.
    rewrite (convertSingle_local env v r Hr Hv), (IH rs eq_refl Hitems). reflexivity.
Qed.

(** A conversion in which no fetch was rejected leaves nothing remote:
    the value that [urlToBase64] resolves to holds no string that starts
    with ["https"], so converting it again returns it as it is and fetches
    nothing. *)
Theorem urlToBase64_converted env v r :
  snd (urlToBase64 env v) = Normal r ->
  no_fetch_rejected env v = true ->
  has_remote r = false /\
  forall env', urlToBase64 env' r = ([], Normal r).
Proof.
  intros Hr Hfetched.
  assert (Hlocal : has_remote r = false).
  { destruct v as [p | items | props].
    - cbn in Hfetched. apply negb_true_iff in Hfetched.
      pose proof (convertSingle_local env (JPrim p) r Hr Hfetched) as H.
      destruct r as [q | vs | fields]; try exact H.
      destruct p as [| | b | n | s]; cbn in Hr; try discriminate.
      destruct (startsWith s "https"); cbn in Hr; [| discriminate].
      destruct (fetch_blob env s) as [| ty [res |]]; discriminate.
    - cbn in Hr, Hfetched.
      destruct (Promise_all (map snd (map (convertSingle env) items))) as [vs |] eqn:Hvs;
        [| discriminate].
      injection Hr as <-. cbn. apply (Promise_all_local env items vs Hvs Hfetched).
    - cbn in Hr. injection Hr as <-. reflexivity. }
  split; [exact Hlocal |]. intros env'.
  destruct r as [p | vs | fields]; cbn in *.
  - apply (convertSingle_not_remote env' (JPrim p) Hlocal).
  - destruct (map_convertSingle_not_remote env' vs Hlocal) as [-> ->]. reflexivity.
  - reflexivity.
Qed.

Lemma urlToBase64_converted_witness :
  urlToBase64 (succeeded_env FetchRejected)
    (JArr [JStr "data:image/png;base64,QUJD"; JNum 1])
  = ([], Normal (JArr [JStr "data:image/png;base64,QUJD"; JNum 1])).
Proof.
  apply (urlToBase64_converted (succeeded_env png_blob)
           (JArr [JStr "https://h/a.png"; JNum 1])
           (JArr [JStr "data:image/png;base64,QUJD"; JNum 1]));
    reflexivity.
Defined.

Lemma split_last sep prefix suffix :
  has_char sep suffix = false ->
  List.last (split sep (prefix ++ String sep suffix)) "" = suffix.
Proof.
  intros Hsuffix.
  assert (H : exists piece pieces,
             split sep (prefix ++ String sep suffix) = (piece :: pieces ++ [suffix])%list).
  { induction prefix as [| c prefix (piece & pieces & IH)]; simpl.
    - rewrite Ascii.eqb_refl, (split_no_sep sep suffix Hsuffix). exists "", []. reflexivity.
    - rewrite IH. destruct (Ascii.eqb c sep).
      + exists "", (piece :: pieces). reflexivity.
      + exists (String c piece), pieces. reflexivity. }
  destruct H as (piece & pieces & ->).
  change (piece :: pieces ++ [suffix])%list with ((piece :: pieces) ++ [suffix])%list.
  apply List.last_last.
Qed.

Lemma has_char_app c s1 s2 : has_char c (s1 ++ s2) = has_char c s1 || has_char c s2.
Proof.
  induction s1 as [| c1 s1 IH]; simpl; [reflexivity |]. rewrite IH, orb_assoc. reflexivity.
Qed.

Lemma string_app_assoc (s1 s2 s3 : string) : (s1 ++ s2) ++ s3 = s1 ++ (s2 ++ s3).
Proof.
  induction s1 as [| c s1 IH]; [reflexivity |].
  change (String c ((s1 ++ s2) ++ s3) = String c (s1 ++ (s2 ++ s3))). f_equal. exact IH.
Qed.

(** The last piece of [s], cut at [sep]. *)
Lemma last_segment sep s :
  has_char sep s = false \/
  exists before after, s = before ++ String sep after /\ has_char sep after = false.
Proof.
  induction s as [| c s [IH | (before & after & -> & IH)]]; simpl.
  - left. reflexivity.
  - destruct (Ascii.eqb_spec c sep) as [-> | Hc].
    + right. exists "", s. split; [reflexivity | exact IH].
    + left. exact IH.
  - right. exists (String c before), after. split; [reflexivity | exact IH].
Qed.

(** [fileName.split('.').pop()] of the last piece of the path: what
    follows the last dot or slash of the URL. *)
Lemma url_extension prefix c extension :
  c = "."%char \/ c = "/"%char ->
  has_char "." extension = false ->
  has_char "/" extension = false ->
  List.last (split "." (List.last (split "/" (prefix ++ String c extension)) "")) ""
  = extension.
Proof.
  intros [-> | ->] Hdot Hslash.
  - destruct (last_segment "/" prefix) as [Hprefix | (before & after & -> & Hafter)].
    + rewrite (split_no_sep "/" (prefix ++ String "." extension)).
      * cbn [List.last]. apply split_last, Hdot.
      * rewrite has_char_app. simpl. rewrite Hprefix, Hslash. reflexivity.
    + rewrite string_app_assoc.
      change (String "/" after ++ String "." extension)
        with (String "/" (after ++ String "." extension)).
      rewrite (split_last "/" before (after ++ String "." extension)).
      * apply split_last, Hdot.
      * rewrite has_char_app. simpl. rewrite Hafter, Hslash. reflexivity.
  - rewrite (split_last "/" prefix extension Hslash).
    rewrite (split_no_sep "." extension Hdot). reflexivity.
Qed.

(** The data URI of a fetched asset.  Its media type is decided by the
    extension of the URL -- what follows its last dot or slash, in any
    case of letters -- and only for an extension that is not one of the five
    image extensions by the type of the fetched blob; the media type that
    the reader reports is dropped, and its payload is kept. *)
Theorem convertSingle_data_uri env prefix c extension blob_type header payload :
  startsWith (prefix ++ String c extension) "https" = true ->
  c = "."%char \/ c = "/"%char ->
  has_char "." extension = false ->
  has_char "/" extension = false ->
  has_char "," header = false ->
  has_char "," payload = false ->
  fetch_blob env (prefix ++ String c extension)
    = Blob blob_type (Some (header ++ String "," payload)) ->
  convertSingle env (JStr (prefix ++ String c extension)) =
    ([ReqAsset (prefix ++ String c extension)],
     Normal (JStr ("data:" ++ media_type (toLowerCase extension) blob_type
                     ++ ";base64," ++ payload))).
Proof.
  intros Hremote Hc Hdot Hslash Hheader Hpayload Hfetch.
  unfold convertSingle, JStr. rewrite Hremote. cbn [negb].
  rewrite Hfetch, (url_extension prefix c extension Hc Hdot Hslash).
  rewrite (split_app "," header payload Hheader), (split_no_sep "," payload Hpayload).
  cbn [nth]. do 3 f_equal. f_equal.
  unfold media_type, image_extensions. cbn [existsb].
  set (e := toLowerCase extension).
  destruct (String.eqb_spec e "jpg") as [-> | _]; [reflexivity |].
  destruct (String.eqb_spec e "jpeg") as [-> | _]; [reflexivity |].
  destruct (String.eqb_spec e "png") as [-> | _]; [reflexivity |].
  destruct (String.eqb_spec e "gif") as [-> | _]; [reflexivity |].
  destruct (String.eqb_spec e "webp") as [-> | _]; [reflexivity |].
  cbn. destruct (String.eqb blob_type ""); reflexivity.
Qed.

Lemma convertSingle_data_uri_witness :
  convertSingle
    (example_env (Normal None) (Normal PollNothing)
       (Blob "" (Some "data:application/octet-stream;base64,QUJD")))
    (JStr "https://h/photo.JPG")
  = ([ReqAsset "https://h/photo.JPG"], Normal (JStr "data:image/jpeg;base64,QUJD")).
Proof.
  apply (convertSingle_data_uri
           (example_env (Normal None) (Normal PollNothing)
              (Blob "" (Some "data:application/octet-stream;base64,QUJD")))
           "https://h/photo" "." "JPG" "" "data:application/octet-stream;base64" "QUJD");
    try reflexivity.
  left. reflexivity.
Defined.

(* ================================================================= *)
(** ** [updateOutputPosition], further *)

Lemma updateOutputPosition_result p w :
  updateOutputPosition p w =
  match findIndex_id (pos_id p) (outputs w) with
  | Throw e => (Throw e, w)
  | Normal None => (Normal tt, w)
  | Normal (Some index) =>
      match target p w ≫= fun l => fmap (fun m => (l, m)) (heap w !! l) with
      | Some (l, m) => (Normal tt, set_heap w (<[l := place p m]> (heap w)))
      | None => (Throw TypeError, w)
      end
  end.
Proof.
  unfold updateOutputPosition, target.
  rewrite (bind_normal get_world _ w w w eq_refl).
  destruct (findIndex_id (pos_id p) (outputs w)) as [[index |] | e] eqn:Hfind.
  2:{ rewrite (bind_normal (of_completion (Normal None)) _ w None w eq_refl). reflexivity. }
  2:{ rewrite (bind_throw (of_completion (Throw e)) _ w e w eq_refl). reflexivity. }
  rewrite (bind_normal (of_completion (Normal (Some index))) _ w (Some index) w eq_refl).
  destruct (findIndex_id_found _ _ _ Hfind) as (o & Ho & _). rewrite Ho.
  destruct (o_metadata o ≫= fun l => heap w !! l) as [m |] eqn:Hobject.
  2:{ rewrite (bind_throw _ _ w TypeError w (assign_metadata_throws index _ w o Ho Hobject)).
      destruct (o_metadata o) as [l |]; cbn in *; [rewrite Hobject |]; reflexivity. }
  destruct (o_metadata o) as [l |] eqn:Hl; [cbn in Hobject | discriminate].
  cbn [mbind option_bind]. rewrite Hobject. cbn [fmap option_fmap option_map].
  rewrite (bind_normal _ _ _ _ _ (assign_metadata_run index _ w o l m Ho Hl Hobject)).
  cbv beta.
  rewrite (bind_normal _ _ _ _ _
             (assign_metadata_again index (set_x (pos_x p)) _ w o l m Ho Hl Hobject)).
  cbv beta.
  rewrite (bind_normal _ _ _ _ _
             (assign_metadata_again index (fun m => set_y (pos_y p) (set_x (pos_x p) m)) _
                w o l m Ho Hl Hobject)).
  cbv beta.
  set (f3 := fun m => set_rotation (pos_rotation p) (set_y (pos_y p) (set_x (pos_x p) m))).
  unfold place.
  destruct (is_undefined (pos_width p)); cbn [negb].
  - rewrite (bind_normal (ret tt) _ _ tt _ eq_refl). cbv beta.
    destruct (is_undefined (pos_height p)); cbn [negb].
    + reflexivity.
    + rewrite (assign_metadata_again index f3 _ w o l m Ho Hl Hobject). reflexivity.
  - rewrite (bind_normal _ _ _ _ _ (assign_metadata_again index f3 _ w o l m Ho Hl Hobject)).
    cbv beta. destruct (is_undefined (pos_height p)); cbn [negb].
    + reflexivity.
    + rewrite (assign_metadata_again index (fun m => set_width (pos_width p) (f3 m)) _
                 w o l m Ho Hl Hobject).
      reflexivity.
Qed.

Lemma place_place p m : place p (place p m) = place p m.
Proof.
  unfold place. cbn.
  destruct (is_undefined (pos_width p)), (is_undefined (pos_height p)); reflexivity.
Qed.

Lemma updateOutputPosition_found p w i o l m :
  findIndex_id (pos_id p) (outputs w) = Normal (Some i) ->
  outputs w !! i = Some (Some o) ->
  o_metadata o = Some l ->
  heap w !! l = Some m ->
  updateOutputPosition p w = (Normal tt, set_heap w (<[l := place p m]> (heap w))).
Proof.
  intros Hfind Ho Hl Hm. rewrite updateOutputPosition_result. unfold target.
  rewrite Hfind, Ho, Hl. cbn. rewrite Hm. reflexivity.
Qed.

(** A move of an Output that is in the registry and has its metadata: the
    action completes, the Output then reads the placement it was given (its
    size too, when one was given) with the [prediction_id] it had, and
    repeating the same move changes nothing more. *)
Theorem updateOutputPosition_places p w i o m :
  findIndex_id (pos_id p) (outputs w) = Normal (Some i) ->
  outputs w !! i = Some (Some o) ->
  metadata_of (heap w) (Some o) = Some m ->
  fst (updateOutputPosition p w) = Normal tt /\
  metadata_of (heap (snd (updateOutputPosition p w))) (Some o) = Some (place p m) /\
  updateOutputPosition p (snd (updateOutputPosition p w))
    = (Normal tt, snd (updateOutputPosition p w)).
Proof.
  intros Hfind Ho Hm. unfold metadata_of in Hm. cbn in Hm.
  destruct (o_metadata o) as [l |] eqn:Hl; [cbn in Hm | discriminate].
  assert (Hnew : <[l := place p m]> (heap w) !! l = Some (place p m)).
  { apply list_lookup_insert_eq. eapply lookup_lt_Some, Hm. }
  rewrite (updateOutputPosition_found p w i o l m Hfind Ho Hl Hm). cbn [fst snd].
  split; [reflexivity |]. split.
  - unfold metadata_of. cbn. rewrite Hl. exact Hnew.
  - rewrite (updateOutputPosition_found p (set_heap w (<[l := place p m]> (heap w)))
               i o l (place p m) Hfind Ho Hl Hnew).
    unfold set_heap. cbn. rewrite list_insert_insert_eq, place_place. reflexivity.
Qed.

Lemma updateOutputPosition_places_witness :
  updateOutputPosition moved (snd (updateOutputPosition moved tracked_world))
  = (Normal tt, snd (updateOutputPosition moved tracked_world)).
Proof.
  refine (proj2 (proj2 (updateOutputPosition_places moved tracked_world 0 _ _ _ _ _)));
    reflexivity.
Defined.

Lemma findIndex_id_no_null id (os : list (option Output)) :
  Forall is_Some os -> exists index, findIndex_id id os = Normal index.
Proof.
  induction 1 as [| entry os [o ->] _ [index IH]]; cbn; [eauto |].
  destruct (strict_eq (o_id o) id); [eauto |]. rewrite IH. destruct index; eauto.
Qed.

(** [updateOutputPosition] is all or nothing: it completes, or it throws
    and the store is exactly as it was -- it never assigns [x] and then
    fails on [y].  After [cleanupOutputs] it always completes. *)
Theorem updateOutputPosition_all_or_nothing p w :
  (fst (updateOutputPosition p w) = Normal tt \/
   exists e, updateOutputPosition p w = (Throw e, w)) /\
  fst (updateOutputPosition p (snd (cleanupOutputs w))) = Normal tt.
Proof.
  split.
  - rewrite updateOutputPosition_result.
    destruct (findIndex_id (pos_id p) (outputs w)) as [[index |] | e]; eauto.
    destruct (target p w ≫= _) as [[l m] |]; eauto.
  - rewrite updateOutputPosition_result, cleanupOutputs_run. unfold target. cbn.
    set (os := List.filter (has_prediction_id (heap w)) (outputs w)).
    assert (Hvalid : Forall (fun entry => has_prediction_id (heap w) entry = true) os).
    { apply List.Forall_forall. intros entry H. apply List.filter_In in H as [_ H]. exact H. }
    destruct (findIndex_id (pos_id p) os) as [[index |] | e] eqn:Hfind; [| reflexivity |].
    + destruct (findIndex_id_found _ _ _ Hfind) as (o & Ho & _). rewrite Ho.
      assert (Ho' : has_prediction_id (heap w) (Some o) = true).
      { rewrite List.Forall_forall in Hvalid. apply Hvalid.
        apply list_elem_of_In, list_elem_of_lookup. eauto. }
      apply has_prediction_id_spec in Ho' as (o' & l & m & s & [= <-] & Hl & Hm & _).
      cbn. rewrite Hl. cbn. rewrite Hm. reflexivity.
    + destruct (findIndex_id_no_null (pos_id p) os) as [index Hindex]; [| congruence].
      eapply Forall_impl; [exact Hvalid |]. intros [o |] H; [eauto | discriminate].
Qed.

(* ================================================================= *)
(** ** [removeOutput], then [pollIncompletePredictions] *)

Lemma later_poll_request env w p :
  ~ pollable w p ->
  forall ids token,
    In (ReqPoll ids token) (requests (snd (pollIncompletePredictions env w))) ->
    In (ReqPoll ids token) (requests w) \/ ~ In p ids.
Proof.
  intros Hnot ids token Hin.
  destruct (pollIncompletePredictions_requests env w) as (assets & Hassets & Hreq).
  rewrite Hreq in Hin. apply in_app_or in Hin as [Hin | Hin]; [left; exact Hin | right].
  destruct (Nat.eqb _ 0); [destruct Hin |].
  destruct Hin as [[= <- _] | Hin].
  - intros Hid. apply Hnot. apply prediction_ids_spec, Hid.
  - rewrite List.Forall_forall in Hassets. destruct (Hassets _ Hin).
Qed.

(* ================================================================= *)
(** ** The getter [incompletePredictions] *)

(** The getter returns entries of the registry, in their order, and never
    a null entry; on a registry that has been cleaned up it returns exactly
    the Outputs whose status is neither ['succeeded'] nor ['failed']. *)
Theorem incompletePredictions_cleaned w :
  sublist (incompletePredictions w) (outputs w) /\
  Forall is_Some (incompletePredictions w) /\
  incompletePredictions (snd (cleanupOutputs w)) =
    List.filter (fun entry => match entry with
                              | Some o => negb (terminal (o_status o))
                              | None => false
                              end)
      (outputs (snd (cleanupOutputs w))).
Proof.
  split; [apply filter_sublist |]. split.
  - apply List.Forall_forall. intros entry H. apply List.filter_In in H as [_ H].
    destruct entry as [o |]; [eauto | discriminate].
  - rewrite cleanupOutputs_run. unfold incompletePredictions. cbn.
    apply List.filter_ext_in. intros entry Hin.
    apply List.filter_In in Hin as [_ Hvalid].
    unfold is_incomplete, terminal. unfold has_prediction_id in Hvalid.
    destruct entry as [o |]; [| reflexivity].
    destruct (metadata_of (heap w) (Some o)) as [m |]; [| discriminate].
    apply andb_true_iff in Hvalid as [-> _]. cbn. rewrite negb_orb. reflexivity.
Qed.

(* ================================================================= *)
(** ** [cleanupOutputs] on the registry as storage holds it *)





(* ================================================================= *)
(** ** [urlToBase64] when a read fails *)

Lemma convertSingle_read_fails env v :
  read_fails env v = true -> snd (convertSingle env v) = Throw ReadError.
Proof.
  destruct v as [[| | b | n | s] | items | props]; cbn; try discriminate.
  destruct (startsWith s "https"); cbn; [| discriminate].
  destruct (fetch_blob env s) as [| ty [res |]]; cbn; try discriminate. reflexivity.
Qed.

Lemma Promise_all_read_fails env items :
  forallb (fun item => negb (read_fails env item)) items = false ->
  Promise_all (map snd (map (convertSingle env) items)) = Throw ReadError.
Proof.
  induction items as [| v items IH]; cbn; [discriminate |].
  destruct (read_fails env v) eqn:Hv; cbn.
  - intros _. rewrite (convertSingle_read_fails env v Hv). reflexivity.
  - intros Hitems. destruct (convertSingle_completes env v Hv) as (r & -> & _).
    rewrite (IH Hitems). reflexivity.
Qed.

(** C9 (what the code does where the claim fails). When the read of the
    blob fetched for the argument, or for one item of an array argument,
    fails, [urlToBase64] rejects: the item does not fall back to its
    reference, and for an array no array is returned at all, whatever the
    other items are. *)
Theorem urlToBase64_read_failure env v :
  no_read_failure env v = false ->
  snd (urlToBase64 env v) = Throw ReadError /\
  (forall r, snd (urlToBase64 env v) <> Normal r).
Proof.
  intros Hfails.
  assert (H : snd (urlToBase64 env v) = Throw ReadError).
  { destruct v as [p | items | props].
    - apply (convertSingle_read_fails env (JPrim p)).
      cbn in Hfails. apply negb_false_iff, Hfails.
    - cbn in Hfails |- *. rewrite (Promise_all_read_fails env items Hfails). reflexivity.
    - discriminate. }
  split; [exact H |]. intros r. rewrite H. discriminate.
Qed.

Lemma urlToBase64_read_failure_witness :
  snd (urlToBase64 (example_env (Throw FetchError) (Throw FetchError) (Blob "image/png" None))
         (JArr [JStr "data:x"; JStr "https://h/a.png"])) = Throw ReadError.
Proof.
  apply (urlToBase64_read_failure
           (example_env (Throw FetchError) (Throw FetchError) (Blob "image/png" None))
           (JArr [JStr "data:x"; JStr "https://h/a.png"])).
  reflexivity.
Defined.

(* ================================================================= *)
(** ** Which entries hold which metadata object *)

Lemma carried_self os entry : In entry os -> carried os entry.
Proof. destruct entry as [o |]; cbn; eauto. Qed.

Lemma carried_sublist os os' :
  (forall entry, In entry os' -> In entry os) -> Forall (carried os) os'.
Proof.
  intros Hsub. apply List.Forall_forall. intros entry Hin. apply carried_self, Hsub, Hin.
Qed.

Lemma update_output_Forall (Q : option Output -> Prop) env prediction o w :
  (forall o', o_id o' = o_id o -> o_metadata o' = o_metadata o -> Q (Some o')) ->
  Forall Q (outputs w) ->
  Forall Q (outputs (snd (update_output env prediction o w))).
Proof.
  intros Ho Hall.
  destruct (findIndex_id (o_id o) (outputs w)) as [[i |] | e] eqn:Hfind.
  - destruct (update_output_run env prediction o w i Hfind) as [reqs ->]. cbn.
    apply Forall_insert; [exact Hall |]. apply Ho; reflexivity.
  - unfold update_output. run. rewrite Hfind. exact Hall.
  - unfold update_output. run. rewrite Hfind. exact Hall.
Qed.

Lemma reconcile_carried env os prediction w :
  Forall (carried os) (outputs w) ->
  Forall (carried os) (outputs (snd (reconcile env prediction w))).
Proof.
  intros Hw. destruct prediction as [p |]; cbn; [| exact Hw].
  destruct (truthy_prim (p_id p)); cbn; [| exact Hw].
  run. apply (for_of_invariant (fun w' => Forall (carried os) (outputs w'))); [| exact Hw].
  intros [o |] w' Hin Hw'; [| exact Hw'].
  apply update_output_Forall; [| exact Hw'].
  apply List.filter_In in Hin as [Hin _].
  rewrite List.Forall_forall in Hw. destruct (Hw _ Hin) as (o0 & Ho0 & Hid & Hmetadata).
  intros o' Hid' Hmetadata'. exists o0. repeat split; congruence.
Qed.

(** The poll pairs no id with a metadata object anew: every entry it
    leaves has the id and the metadata object of an entry that the cleanup
    at its start left. *)
Lemma pollIncompletePredictions_carried env w :
  Forall (carried (outputs (snd (cleanupOutputs w))))
    (outputs (snd (pollIncompletePredictions env w))).
Proof.
  rewrite pollIncompletePredictions_reported. cbn zeta.
  assert (Hself : Forall (carried (outputs (snd (cleanupOutputs w))))
                    (outputs (snd (cleanupOutputs w)))) by (apply carried_sublist; auto).
  destruct (Nat.eqb _ 0); [exact Hself |].
  apply (for_of_invariant
           (fun w' => Forall (carried (outputs (snd (cleanupOutputs w)))) (outputs w')));
    [| exact Hself].
  intros prediction w' _. apply reconcile_carried.
Qed.

Lemma well_formed_carried w w' :
  well_formed w ->
  length (heap w) <= length (heap w') ->
  Forall (carried (outputs w)) (outputs w') ->
  well_formed w'.
Proof.
  intros [Hvalid Hshared] Hheap Hcarried. rewrite List.Forall_forall in Hcarried. split.
  - intros o' l Hin Hl. destruct (Hcarried _ Hin) as (o & Ho & _ & Hmetadata).
    rewrite Hmetadata in Hl. specialize (Hvalid o l Ho Hl). lia.
  - intros o1' o2' l Hin1 Hin2 Hl1 Hl2.
    destruct (Hcarried _ Hin1) as (o1 & Ho1 & Hid1 & Hm1).
    destruct (Hcarried _ Hin2) as (o2 & Ho2 & Hid2 & Hm2).
    rewrite Hid1, Hid2. apply (Hshared o1 o2 l); congruence.
Qed.

Lemma unshared_well_formed w : unshared w -> well_formed w.
Proof.
  intros [Hvalid Hown]. split; [exact Hvalid |].
  intros o o' l Hin Hin' Hl Hl'.
  apply list_elem_of_In, list_elem_of_lookup in Hin as [i Hi].
  apply list_elem_of_In, list_elem_of_lookup in Hin' as [j Hj].
  assert (i = j) by (eapply Hown; eassumption). subst j.
  rewrite Hi in Hj. congruence.
Qed.

Lemma filter_by_id_In keep os kept entry :
  filter_by_id keep os = Normal kept -> In entry kept -> In entry os.
Proof.
  revert kept. induction os as [| [o |] os IH]; cbn; intros kept Hkept Hin.
  - injection Hkept as <-. exact Hin.
  - destruct (filter_by_id keep os) as [kept' |]; [| discriminate].
    injection Hkept as <-. destruct (keep (o_id o)).
    + destruct Hin as [<- | Hin]; [left; reflexivity | right; eauto].
    + right. eauto.
  - discriminate.
Qed.

Lemma removeOutput_In arg w entry :
  In entry (outputs (snd (removeOutput arg w))) -> In entry (outputs w).
Proof.
  unfold removeOutput. run.
  destruct arg as [id | ids].
  - destruct (filter_by_id _ (outputs w)) as [kept |] eqn:Hkept; cbn; [| auto].
    apply (filter_by_id_In _ _ _ _ Hkept).
  - destruct (filter_by_id _ (outputs w)) as [kept |] eqn:Hkept; cbn; [| auto].
    apply (filter_by_id_In _ _ _ _ Hkept).
Qed.

(** [well_formed] is an invariant of the store: it holds of a registry in
    which every entry has a metadata object of its own, as storage gives
    it, and every action keeps it, whatever the network answers. *)
Theorem well_formed_preserved env w :
  well_formed w ->
  (forall input, well_formed (snd (createPrediction env input w))) /\
  well_formed (snd (pollIncompletePredictions env w)) /\
  well_formed (snd (cleanupOutputs w)) /\
  (forall arg, well_formed (snd (removeOutput arg w))) /\
  (forall p, well_formed (snd (updateOutputPosition p w))) /\
  well_formed (snd (resetStore w)).
Proof.
  intros Hw.
  assert (Hclean : well_formed (snd (cleanupOutputs w))).
  { apply (well_formed_carried w); [exact Hw | rewrite cleanupOutputs_run; cbn; lia |].
    apply carried_sublist. rewrite cleanupOutputs_run. cbn. intros entry Hin.
    apply List.filter_In in Hin as [Hin _]. exact Hin. }
  split; [| split; [| split; [exact Hclean | split; [| split]]]].
  - intros input. rewrite createPrediction_run. cbn zeta.
    destruct (post_prediction env (replicate_api_token w) input) as [[prediction |] | e];
      try exact Hw.
    destruct (truthy (p_error prediction)); [exact Hw |].
    destruct (get_prop input "aspect_ratio") as [[[| | b | n | a] | items | props] | e];
      try exact Hw.
    destruct Hw as [Hvalid Hshared]. split; cbn.
    + intros o l Hin Hl. rewrite length_app. cbn.
      apply in_app_or in Hin as [Hin | [[= <-] | []]].
      * specialize (Hvalid o l Hin Hl). lia.
      * cbn in Hl. injection Hl as <-. lia.
    + intros o o' l Hin Hin' Hl Hl'.
      apply in_app_or in Hin as [Hin | [[= <-] | []]];
        apply in_app_or in Hin' as [Hin' | [[= <-] | []]].
      * apply (Hshared o o' l); assumption.
      * cbn in Hl'. injection Hl' as <-. specialize (Hvalid o _ Hin Hl). lia.
      * cbn in Hl. injection Hl as <-. specialize (Hvalid o' _ Hin' Hl'). lia.
      * reflexivity.
  - apply (well_formed_carried (snd (cleanupOutputs w))); [exact Hclean | |].
    + destruct (pollIncompletePredictions_tracked env w) as (-> & _).
      rewrite cleanupOutputs_run. cbn. lia.
    + apply pollIncompletePredictions_carried.
  - intros arg. apply (well_formed_carried w); [exact Hw | |].
    + unfold removeOutput. run.
      destruct (match arg with OneId _ => _ | ManyIds _ => _ end); cbn; lia.
    + apply carried_sublist. apply removeOutput_In.
  - intros p. apply (well_formed_carried w); [exact Hw | |].
    + destruct (updateOutputPosition_frame p w) as (_ & _ & _ & ->).
      destruct (target p w) as [l |]; [| lia].
      destruct (heap w !! l); [rewrite length_insert |]; lia.
    + destruct (updateOutputPosition_frame p w) as (-> & _).
      apply carried_sublist. auto.
  - split; cbn; intros; contradiction.
Qed.

Lemma twin_world_unshared : unshared twin_world.
Proof.
  split.
  - intros o l [[= <-] | [[= <-] | []]] [= <-]; cbn; lia.
  - intros [| [| i]] [| [| j]] o o' l Hi Hj Hl Hl'; cbn in Hi, Hj;
      try discriminate; try reflexivity;
      injection Hi as <-; injection Hj as <-; cbn in Hl, Hl'; congruence.
Qed.

Lemma well_formed_preserved_witness :
  well_formed (snd (pollIncompletePredictions (succeeded_env png_blob) twin_world)).
Proof.
  apply (well_formed_preserved (succeeded_env png_blob) twin_world).
  apply unshared_well_formed, twin_world_unshared.
Defined.

(* ================================================================= *)
(** ** [pollIncompletePredictions]: what it leaves, with any ids *)

(** Whatever the network answers and whether or not the ids repeat,
    [pollIncompletePredictions] changes no metadata object and not the
    token; the registry it leaves has as many entries as the cleanup at its
    start left; every entry of it has a non-empty [prediction_id], and has
    the id and the metadata object of an entry that the cleanup left. *)
Theorem pollIncompletePredictions_keeps env w :
  heap (snd (pollIncompletePredictions env w)) = heap w /\
  replicate_api_token (snd (pollIncompletePredictions env w)) = replicate_api_token w /\
  length (outputs (snd (pollIncompletePredictions env w)))
    = length (outputs (snd (cleanupOutputs w))) /\
  Forall (fun entry => has_prediction_id (heap w) entry = true)
    (outputs (snd (pollIncompletePredictions env w))) /\
  Forall (carried (outputs (snd (cleanupOutputs w))))
    (outputs (snd (pollIncompletePredictions env w))).
Proof.
  destruct (pollIncompletePredictions_tracked env w) as (Hheap & Htoken & Hlength & Hall).
  repeat split; try assumption. apply pollIncompletePredictions_carried.
Qed.

(* ================================================================= *)
(** ** [updateOutputPosition] and the other Outputs *)

Lemma updateOutputPosition_heap_lookup p w (l : loc) m :
  heap w !! l = Some m ->
  exists m', heap (snd (updateOutputPosition p w)) !! l = Some m' /\
             m_prediction_id m' = m_prediction_id m /\ (m' = m \/ m' = place p m).
Proof.
  intros Hm. destruct (updateOutputPosition_frame p w) as (_ & _ & _ & ->).
  destruct (target p w) as [l' |]; [| eauto].
  destruct (heap w !! l') as [m0 |] eqn:Hm0; [| eauto].
  destruct (decide (l' = l)) as [Heq | Hne].
  - subst l'. rewrite Hm in Hm0. injection Hm0 as <-.
    exists (place p m). split; [| split; [reflexivity | auto]].
    apply list_lookup_insert_eq. eapply lookup_lt_Some, Hm.
  - exists m. rewrite list_lookup_insert_ne by exact Hne. auto.
Qed.

(** C10. In a store that is [well_formed] -- as every action leaves it --
    [updateOutputPosition] leaves the registry as it is: its length and
    order, and the id, status, input, result and metadata object of every
    entry.  The metadata of an Output keeps its [prediction_id] and is
    otherwise either what it was or the placement [place] of the call; the
    metadata of every Output whose id is not the given one is what it was,
    so when one Output only has the id, every other entry is unchanged; and
    when no Output has the id, nothing in the store changes. *)
Theorem updateOutputPosition_single_output p w :
  well_formed w ->
  outputs (snd (updateOutputPosition p w)) = outputs w /\
  (forall o m, In (Some o) (outputs w) -> metadata_of (heap w) (Some o) = Some m ->
     exists m', metadata_of (heap (snd (updateOutputPosition p w))) (Some o) = Some m' /\
                m_prediction_id m' = m_prediction_id m /\ (m' = m \/ m' = place p m)) /\
  (forall o, In (Some o) (outputs w) -> strict_eq (o_id o) (pos_id p) = false ->
     metadata_of (heap (snd (updateOutputPosition p w))) (Some o)
     = metadata_of (heap w) (Some o)) /\
  (forall i, findIndex_id (pos_id p) (outputs w) = Normal (Some i) ->
     (forall j o, j <> i -> outputs w !! j = Some (Some o) ->
        strict_eq (o_id o) (pos_id p) = false) ->
     forall j entry, j <> i -> outputs w !! j = Some entry ->
       metadata_of (heap (snd (updateOutputPosition p w))) entry
       = metadata_of (heap w) entry) /\
  (findIndex_id (pos_id p) (outputs w) = Normal None ->
     snd (updateOutputPosition p w) = w).
Proof.
  intros [Hvalid Hshared].
  assert (Hother : forall o, In (Some o) (outputs w) ->
            strict_eq (o_id o) (pos_id p) = false ->
            metadata_of (heap (snd (updateOutputPosition p w))) (Some o)
            = metadata_of (heap w) (Some o)).
  { intros o Hin Hid.
    destruct (target p w) as [l |] eqn:Htarget.
    - apply updateOutputPosition_other_outputs. rewrite Htarget. cbn. intros Hl.
      unfold target in Htarget.
      destruct (findIndex_id (pos_id p) (outputs w)) as [[i |] | e] eqn:Hfind;
        try discriminate.
      destruct (findIndex_id_found _ _ _ Hfind) as (o0 & Ho0 & Hid0).
      rewrite Ho0 in Htarget.
      assert (Hin0 : In (Some o0) (outputs w)).
      { apply list_elem_of_In, list_elem_of_lookup. eauto. }
      rewrite (Hshared o o0 l Hin Hin0 Hl Htarget) in Hid. congruence.
    - destruct (updateOutputPosition_frame p w) as (_ & _ & _ & ->).
      rewrite Htarget. reflexivity. }
  split; [apply updateOutputPosition_frame |]. split; [| split; [exact Hother | split]].
  - intros o m Hin Hm. unfold metadata_of in *. cbn in *.
    destruct (o_metadata o) as [l |]; [cbn in * | discriminate].
    apply updateOutputPosition_heap_lookup, Hm.
  - intros i Hfind Hsingle j [o |] Hj Hentry; [| reflexivity].
    apply Hother; [| apply (Hsingle j o Hj Hentry)].
    apply list_elem_of_In, list_elem_of_lookup. eauto.
  - intros Hnone. rewrite updateOutputPosition_result, Hnone. reflexivity.
Qed.

Lemma updateOutputPosition_single_output_witness :
  map (metadata_of (heap (snd (updateOutputPosition moved_a twin_world))))
    (outputs (snd (updateOutputPosition moved_a twin_world)))
  = [Some {| m_prediction_id := PStr "job1"; m_x := JNum 10; m_y := JNum 20;
             m_rotation := JNum 90; m_width := JNum 150; m_height := JNum 225 |};
     Some {| m_prediction_id := PStr "job1"; m_x := JNum 320; m_y := JNum 0;
             m_rotation := JNum 0; m_width := JNum 300; m_height := JNum 225 |}] /\
  outputs (snd (updateOutputPosition moved_a twin_world)) = outputs twin_world.
Proof.
  split; [reflexivity |].
  apply (updateOutputPosition_single_output moved_a twin_world).
  apply unshared_well_formed, twin_world_unshared.
Defined.

(* ================================================================= *)
(** ** [removeOutput], then any number of polls *)

Lemma pollIncompletePredictions_follows env w s :
  follows (snd (pollIncompletePredictions env w)) s -> follows w s.
Proof.
  intros (o' & Hin & Hid).
  pose proof (pollIncompletePredictions_carried env w) as Hcarried.
  rewrite List.Forall_forall in Hcarried.
  destruct (Hcarried _ Hin) as (o & Ho & _ & Hmetadata).
  destruct (pollIncompletePredictions_tracked env w) as (Hheap & _).
  exists o. split.
  - rewrite cleanupOutputs_run in Ho. cbn in Ho.
    apply List.filter_In in Ho as [Ho _]. exact Ho.
  - rewrite <- Hid, Hheap. unfold prediction_id_of, metadata_of. cbn.
    rewrite Hmetadata. reflexivity.
Qed.

Lemma pollable_follows w s : pollable w (PStr s) -> follows w s.
Proof.
  intros (o & m & s' & Hin & Hm & Hs & _ & [= <-] & _).
  exists o. split; [exact Hin |]. unfold prediction_id_of. rewrite Hm. exact Hs.
Qed.

Lemma polls_requests envs s :
  forall w,
    ~ follows w s ->
    forall ids token,
      In (ReqPoll ids token) (requests (snd (for_of envs pollIncompletePredictions w))) ->
      In (ReqPoll ids token) (requests w) \/ ~ In (PStr s) ids.
Proof.
  induction envs as [| env envs IH]; intros w Hnot ids token Hin; [left; exact Hin |].
  rewrite for_of_cons in Hin.
  assert (Hfst : fst (pollIncompletePredictions env w) = Normal tt)
    by (rewrite pollIncompletePredictions_run; reflexivity).
  destruct (pollIncompletePredictions env w) as [c w1] eqn:Hpoll. cbn in Hfst. subst c.
  assert (Hw1 : w1 = snd (pollIncompletePredictions env w)) by (rewrite Hpoll; reflexivity).
  destruct (IH w1) with (ids := ids) (token := token) as [Hold | Hnew].
  - rewrite Hw1. intros Hfollows. apply Hnot. eapply pollIncompletePredictions_follows, Hfollows.
  - exact Hin.
  - rewrite Hw1 in Hold. apply (later_poll_request env w (PStr s)); [| exact Hold].
    intros Hpollable. apply Hnot, pollable_follows, Hpollable.
  - right. exact Hnew.
Qed.

(** Removing the Outputs of a prediction ends its polling: when every
    Output that follows the prediction [s] has the id that is removed, no
    Output follows [s] after [removeOutput], and however many polls come
    next and whatever they are answered, none of them asks about [s]. *)
Theorem removeOutput_not_polled id s w :
  Forall is_Some (outputs w) ->
  (forall o, In (Some o) (outputs w) ->
     prediction_id_of (heap w) (Some o) = PStr s -> strict_eq (o_id o) id = true) ->
  ~ follows (snd (removeOutput (OneId id) w)) s /\
  forall envs ids token,
    In (ReqPoll ids token)
       (requests (snd (for_of envs pollIncompletePredictions
                         (snd (removeOutput (OneId id) w))))) ->
    In (ReqPoll ids token) (requests w) \/ ~ In (PStr s) ids.
Proof.
  intros Hsome Honly.
  assert (Hrun : removeOutput (OneId id) w
                 = (Normal tt, set_outputs w (List.filter (other_id id) (outputs w)))).
  { apply removeOutput_run. rewrite filter_by_id_Some by assumption. reflexivity. }
  assert (Hnot : ~ follows (snd (removeOutput (OneId id) w)) s).
  { rewrite Hrun. cbn [snd]. intros (o & Hin & Hid).
    cbn in Hin, Hid. apply List.filter_In in Hin as [Hin Hother].
    cbn in Hother. rewrite (Honly o Hin Hid) in Hother. discriminate. }
  split; [exact Hnot |]. intros envs ids token Hin.
  destruct (polls_requests envs s _ Hnot ids token Hin) as [H | H];
    [left | right; exact H].
  rewrite Hrun in H. exact H.
Qed.

Lemma removeOutput_not_polled_witness :
  ~ follows (snd (removeOutput (OneId (PStr "output-job1")) tracked_world)) "job1".
Proof.
  apply (removeOutput_not_polled (PStr "output-job1") "job1" tracked_world).
  - repeat constructor; eexists; reflexivity.
  - intros o [[= <-] | []] _. reflexivity.
Defined.
